(** * go-tpm-keyfiles: the TSS2 PRIVATE KEY codec and the key entity

    A shallow embedding of the ASN.1 parser ([Parse], [parseTPMPolicy],
    [parseTPMAuthPolicy]) and of the key entity ([HasSinger], [KeyAlgo],
    [ecdsaPubKey], [PublicKey], [Signer], [Verify]), with the parts of
    golang.org/x/crypto/cryptobyte the parser calls.

    Conventions.  A Go [[]byte] and a [cryptobyte.String] are a [list byte];
    a nil slice and an empty one both have length zero and are the empty
    list.  Go's [int] is the 64-bit signed integer, carried in [Z].  A Go
    function returning [(T, error)] is a [result T] when the value is
    meaningless next to an error, and a pair of options where the code can
    return nil for both. *)

From Stdlib Require Import ZArith List Lia Bool.
From Stdlib Require Import Strings.String Strings.Ascii Strings.Byte.
Import ListNotations.
Local Open Scope Z_scope.

Set Implicit Arguments.

(** ** Bytes *)

Abbreviation bytes := (list byte).

Definition byte_val (b : byte) : Z := Z.of_N (Byte.to_N b).

Definition byte_of_Z (z : Z) : byte :=
  match Byte.of_N (Z.to_N (z mod 256)) with
  | Some b => b
  | None => x00
  end.

Definition len (A : Type) (l : list A) : Z := Z.of_nat (List.length l).

(** Go's [(T, error)] with the error text. *)
Inductive result (A : Type) : Type :=
| Ok (a : A)
| Err (msg : string).
Arguments Ok {A} a.
Arguments Err {A} msg.

(** ** golang.org/x/crypto/cryptobyte: reading

    The reader methods of [cryptobyte.String] that the parser calls, after
    asn1.go of the library.  A method that returns false is [None]; one that
    returns true gives its outputs and the cursor it leaves. *)

Module cryptobyte.

(** A [cryptobyte.String] is a byte slice used as a read cursor. *)
Abbreviation String := (list byte).

(** asn1.Tag values. *)
Definition BOOLEAN : Z := 1.
Definition INTEGER : Z := 2.
Definition OCTET_STRING : Z := 4.
Definition OBJECT_IDENTIFIER : Z := 6.
Definition UTF8String : Z := 12.
Definition SEQUENCE : Z := 16 + 32.
Definition classConstructed : Z := 32.
Definition classContextSpecific : Z := 128.
Definition Constructed (t : Z) : Z := Z.lor t classConstructed.
Definition ContextSpecific (t : Z) : Z := Z.lor t classContextSpecific.

(** [s.read(n)]: the first [n] bytes and the rest. *)
Definition read (s : String) (n : Z) : option (bytes * String) :=
  if (len s <? n) || (n <? 0) then None
  else Some (firstn (Z.to_nat n) s, skipn (Z.to_nat n) s).

Definition Empty (s : String) : bool := len s =? 0.

(** [readUnsigned]: a big-endian number of [length s] bytes, in a uint32. *)
Definition readUnsigned (v : bytes) : Z :=
  fold_left (fun acc b => Z.lor (Z.shiftl acc 8 mod 2 ^ 32) (byte_val b)) v 0.

(** [readASN1] with [skipHeader = true]: the tag, the contents of the
    first element and the rest of [s]. *)
Definition ReadAnyASN1 (s : String) : option (Z * String * String) :=
  match s with
  | tagb :: lenb :: _ =>
      let tag := byte_val tagb in
      let lenByte := byte_val lenb in
      if Z.land tag 31 =? 31 then None
      else
        let hdr : option (Z * Z) :=   (* length, headerLen *)
          if Z.land lenByte 128 =? 0 then Some (lenByte + 2, 2)
          else
            let lenLen := Z.land lenByte 127 in
            if (lenLen =? 0) || (4 <? lenLen) || (len s <? 2 + lenLen) then None
            else
              let len32 :=
                readUnsigned (firstn (Z.to_nat lenLen) (skipn 2 s)) in
              if len32 <? 128 then None
              else if Z.shiftr len32 ((lenLen - 1) * 8) =? 0 then None
              else
                let headerLen := 2 + lenLen in
                if (headerLen + len32) mod 2 ^ 32 <? len32 then None
                else Some ((headerLen + len32) mod 2 ^ 32, headerLen)
        in
        match hdr with
        | None => None
        | Some (length, headerLen) =>
            match read s length with
            | None => None
            | Some (elem, rest) =>
                Some (tag, skipn (Z.to_nat headerLen) elem, rest)
            end
        end
  | _ => None
  end.

Definition ReadASN1 (s : String) (tag : Z) : option (String * String) :=
  match ReadAnyASN1 s with
  | Some (t, out, rest) => if t =? tag then Some (out, rest) else None
  | None => None
  end.

Definition PeekASN1Tag (s : String) (tag : Z) : bool :=
  match s with
  | [] => false
  | b :: _ => byte_val b =? tag
  end.

(** [ReadOptionalASN1]: [None] is the call returning false; otherwise the
    contents (empty when absent), the presence flag and the rest. *)
Definition ReadOptionalASN1 (s : String) (tag : Z)
  : option (String * bool * String) :=
  if PeekASN1Tag s tag then
    match ReadASN1 s tag with
    | Some (out, rest) => Some (out, true, rest)
    | None => None
    end
  else Some ([], false, s).

Definition ReadASN1Bytes (s : String) (tag : Z) : option (bytes * String) :=
  ReadASN1 s tag.

Definition ReadASN1Boolean (s : String) : option (bool * String) :=
  match ReadASN1 s BOOLEAN with
  | Some ([b], rest) =>
      if byte_val b =? 0 then Some (false, rest)
      else if byte_val b =? 255 then Some (true, rest)
      else None
  | _ => None
  end.

Definition checkASN1Integer (v : bytes) : bool :=
  match v with
  | [] => false
  | [_] => true
  | b0 :: b1 :: _ =>
      if ((byte_val b0 =? 0) && (Z.land (byte_val b1) 128 =? 0))
         || ((byte_val b0 =? 255) && (Z.land (byte_val b1) 128 =? 128))
      then false else true
  end.

(** Two's-complement reading of a 64-bit pattern. *)
Definition int64 (z : Z) : Z := (z + 2 ^ 63) mod 2 ^ 64 - 2 ^ 63.

(** One round of the loop of [asn1Signed]: [out <<= 8; out |= int64(b)]. *)
Definition signedStep (out : Z) (b : byte) : Z :=
  int64 (Z.lor (int64 (Z.shiftl out 8)) (byte_val b)).

Definition asn1Signed (n : bytes) : option Z :=
  if 8 <? len n then None
  else
    let acc := fold_left signedStep n 0 in
    (* shift up and down in order to sign extend the result *)
    let sh := 64 - len n * 8 in
    Some (Z.shiftr (int64 (Z.shiftl acc sh)) sh).

(** The values of a Go [int64]. *)
Definition int64_range (z : Z) : bool := (- 2 ^ 63 <=? z) && (z <? 2 ^ 63).

Definition readASN1Int64 (s : String) : option (Z * String) :=
  match ReadASN1 s INTEGER with
  | Some (v, rest) =>
      if checkASN1Integer v then
        match asn1Signed v with
        | Some i => Some (i, rest)
        | None => None
        end
      else None
  | None => None
  end.

(** [ReadASN1Integer] into an [*int]: an int64 on the 64-bit platforms, so
    [OverflowInt] never fires. *)
Definition ReadASN1Integer (s : String) : option (Z * String) :=
  readASN1Int64 s.

(** [readBase128Int]: the loop, [i] counting the bytes consumed. *)
Fixpoint readBase128Int_loop (s : String) (i : Z) (ret : Z)
  : option (Z * String) :=
  match s with
  | [] => None
  | b :: s' =>
      if i =? 5 then None
      else if 2 ^ 24 <=? ret then None
      else
        let ret := Z.shiftl ret 7 in
        if (i =? 0) && (byte_val b =? 128) then None
        else
          let ret := Z.lor ret (Z.land (byte_val b) 127) in
          if Z.land (byte_val b) 128 =? 0 then Some (ret, s')
          else readBase128Int_loop s' (i + 1) ret
  end.

Definition readBase128Int (s : String) : option (Z * String) :=
  readBase128Int_loop s 0 0.

(** The loop of [ReadASN1ObjectIdentifier] over the remaining
    subidentifiers; [fuel] bounds the iterations by the bytes left. *)
Fixpoint readComponents (fuel : nat) (s : String) : option (list Z) :=
  match s with
  | [] => Some []
  | _ :: _ =>
      match fuel with
      | O => None
      | S fuel' =>
          match readBase128Int s with
          | Some (v, s') =>
              match readComponents fuel' s' with
              | Some vs => Some (v :: vs)
              | None => None
              end
          | None => None
          end
      end
  end.

Definition ReadASN1ObjectIdentifier (s : String)
  : option (list Z * String) :=
  match ReadASN1 s OBJECT_IDENTIFIER with
  | Some (v, rest) =>
      if len v =? 0 then None
      else
        match readBase128Int v with
        | Some (n, v') =>
            let c01 := if n <? 80 then [n / 40; n mod 40] else [2; n - 80] in
            match readComponents (List.length v') v' with
            | Some cs => Some (c01 ++ cs, rest)
            | None => None
            end
        | None => None
        end
  | None => None
  end.

(** *** Writing

    The encoder of the key file is not among the sources.  These are the
    DER forms it is specified to write, "DER canonical (shortest-form)
    length and boolean encodings"; for contents below 2^32 bytes they are
    the bytes [cryptobyte.Builder] emits under the same names. *)

(** Modelled from the spec: the significant bytes of a length [n],
    big-endian, for the long form the absent encoder writes; eight bytes
    cover every Go length. *)
Fixpoint be_bytes (fuel : nat) (n : Z) : bytes :=
  match fuel with
  | O => []
  | S fuel' =>
      if n <=? 0 then [] else be_bytes fuel' (n / 256) ++ [byte_of_Z n]
  end.

(** Modelled from the spec: the DER length octets of the absent encoder,
    short form below 128, else the shortest long form. *)
Definition lengthOctets (n : Z) : bytes :=
  if n <? 128 then [byte_of_Z n]
  else
    let bs := be_bytes 8 n in
    byte_of_Z (Z.lor 128 (len bs)) :: bs.

(** Modelled from the spec: an element of the absent encoder's output, the
    tag, the length octets and the contents [body]. *)
Definition AddASN1 (tag : Z) (body : bytes) : bytes :=
  byte_of_Z tag :: lengthOctets (len body) ++ body.

(** Modelled from the spec: an OCTET STRING of the absent encoder. *)
Definition AddASN1OctetString (v : bytes) : bytes := AddASN1 OCTET_STRING v.

(** Modelled from the spec: a BOOLEAN of the absent encoder, TRUE being
    0xff in DER. *)
Definition AddASN1Boolean (v : bool) : bytes :=
  AddASN1 BOOLEAN [if v then xff else x00].

(** Modelled from the spec: the number of bytes of the shortest
    two's-complement form of an INTEGER of the absent encoder; an int64
    needs at most eight rounds. *)
Fixpoint signedLength (fuel : nat) (i : Z) : nat :=
  match fuel with
  | O => 1%nat
  | S fuel' =>
      if (128 <=? i) || (i <? -128)
      then S (signedLength fuel' (Z.shiftr i 8))
      else 1%nat
  end.

(** Modelled from the spec: the [length] low bytes of [v], big-endian, the
    contents of an INTEGER of the absent encoder. *)
Fixpoint signedBytes (length : nat) (v : Z) : bytes :=
  match length with
  | O => []
  | S l' =>
      byte_of_Z (Z.land (Z.shiftr v (Z.of_nat l' * 8)) 255) :: signedBytes l' v
  end.

(** Modelled from the spec: an INTEGER of the absent encoder. *)
Definition AddASN1Int64 (v : Z) : bytes :=
  AddASN1 INTEGER (signedBytes (signedLength 8 v) v).

(** Modelled from the spec: the number of 7-bit groups of a subidentifier
    in an OBJECT IDENTIFIER of the absent encoder. *)
Fixpoint base128Length (fuel : nat) (i : Z) : nat :=
  match fuel with
  | O => O
  | S fuel' => if 0 <? i then S (base128Length fuel' (Z.shiftr i 7)) else O
  end.

(** Modelled from the spec: the 7-bit groups of a subidentifier, all but
    the last with the high bit set, as the absent encoder writes them. *)
Fixpoint base128Bytes (i : nat) (n : Z) : bytes :=
  match i with
  | O => []
  | S i' =>
      let o := Z.land (Z.shiftr n (Z.of_nat i' * 7)) 127 in
      byte_of_Z (if Nat.eqb i' 0 then o else Z.lor o 128) :: base128Bytes i' n
  end.

(** Modelled from the spec: a subidentifier of the absent encoder. *)
Definition addBase128Int (n : Z) : bytes :=
  base128Bytes (if n =? 0 then 1%nat else base128Length 10 n) n.

(** Modelled from the spec: an OBJECT IDENTIFIER of the absent encoder,
    the first two components packed into one subidentifier. *)
Definition AddASN1ObjectIdentifier (oid : list Z) : bytes :=
  AddASN1 OBJECT_IDENTIFIER
    match oid with
    | o0 :: o1 :: rest =>
        addBase128Int (o0 * 40 + o1) ++ flat_map addBase128Int rest
    | _ => []
    end.

End cryptobyte.

(** ** unicode/utf8 *)

Module utf8.

Definition between (lo hi : Z) (b : byte) : bool :=
  (lo <=? byte_val b) && (byte_val b <=? hi).

(** [utf8.Valid]: the well-formed byte sequences of the Unicode standard
    (no overlong forms, no surrogates, nothing above U+10FFFF). *)
Fixpoint Valid (p : bytes) : bool :=
  match p with
  | [] => true
  | b0 :: r0 =>
      let v := byte_val b0 in
      if v <? 128 then Valid r0
      else if (194 <=? v) && (v <=? 223) then
        match r0 with
        | b1 :: r1 => between 128 191 b1 && Valid r1
        | _ => false
        end
      else if (224 <=? v) && (v <=? 239) then
        match r0 with
        | b1 :: b2 :: r2 =>
            between (if v =? 224 then 160 else 128)
                    (if v =? 237 then 159 else 191) b1
            && between 128 191 b2 && Valid r2
        | _ => false
        end
      else if (240 <=? v) && (v <=? 244) then
        match r0 with
        | b1 :: b2 :: b3 :: r3 =>
            between (if v =? 240 then 144 else 128)
                    (if v =? 244 then 143 else 191) b1
            && between 128 191 b2 && between 128 191 b3 && Valid r3
        | _ => false
        end
      else false
  end.

End utf8.

(** ** encoding/asn1.ObjectIdentifier *)

Definition ObjectIdentifier := list Z.

Fixpoint oid_Equal (a b : ObjectIdentifier) : bool :=
  match a, b with
  | [], [] => true
  | x :: a', y :: b' => (x =? y) && oid_Equal a' b'
  | _, _ => false
  end.

(** ** Package keyfiles: the parser *)

Module keyfiles.
Import cryptobyte.

Definition oidTPMKey : ObjectIdentifier := [2; 23; 133; 10; 2].
Definition OIDOldLoadableKey : ObjectIdentifier := [2; 23; 133; 10; 2].
Definition OIDLoadableKey : ObjectIdentifier := [2; 23; 133; 10; 1; 3].
Definition OIDImportbleKey : ObjectIdentifier := [2; 23; 133; 10; 1; 4].
Definition OIDSealedKey : ObjectIdentifier := [2; 23; 133; 10; 1; 5].

Definition ErrNotTPMKey : string := "not a TSS2 PRIVATE KEY".

Record TPMPolicy : Type := mkTPMPolicy {
  commandCode : Z;
  commandPolicy : bytes
}.

Record TPMAuthPolicy : Type := mkTPMAuthPolicy {
  name : bytes;
  ap_policy : list TPMPolicy
}.

Record TPMKey : Type := mkTPMKey {
  keytype : ObjectIdentifier;
  emptyAuth : bool;
  policy : list TPMPolicy;
  secret : bytes;
  authPolicy : list TPMAuthPolicy;
  Parent : Z;
  Pubkey : bytes;
  Privkey : bytes
}.

(** [asn1.Tag(n).ContextSpecific().Constructed()] *)
Definition ctx (n : Z) : Z := Constructed (ContextSpecific n).

(** [parseTPMPolicy(der)]: the policies and the cursor [der] after the
    call.  Without the wrapper the code returns [[]*TPMPolicy{}], with a
    wrapper around nothing the nil [tpmpolicies]: both are slices of no
    element, the empty list. *)
Definition parseTPMPolicy (der : String) : result (list TPMPolicy * String) :=
  match ReadOptionalASN1 der (ctx 1) with
  | None => Err "should have policy, failed reading"
  | Some (policy, hasPolicy, der) =>
  if negb hasPolicy then Ok ([], der)
  else
  (* read outer sequence *)
  match ReadASN1 policy SEQUENCE with
  | None => Err "malformed policy sequence"
  | Some (policySequence, _) =>
  if negb (Empty policySequence) then
    match ReadASN1 policySequence SEQUENCE with
    | None => Err "malformed policy sequence"
    | Some (policyBytes, _) =>
    match ReadASN1 policyBytes (ctx 0) with
    | None => Err "strip tag from commandCode"
    | Some (ccBytes, policyBytes) =>
    match ReadASN1Integer ccBytes with
    | None => Err "malformed policy commandCode"
    | Some (cc, _) =>
    match ReadASN1 policyBytes (ctx 1) with
    | None => Err "strip tag from commandPolicy"
    | Some (cpBytes, _) =>
    match ReadASN1Bytes cpBytes OCTET_STRING with
    | None => Err "malformed policy commandPolicy"
    | Some (cp, _) => Ok ([] ++ [mkTPMPolicy cc cp], der)
    end end end end end
  else Ok ([], der)
  end end.

(** [parseTPMAuthPolicy(der)].  The element that is read goes into the
    local [tpmAuthPolicy], which no statement appends to [authPolicy];
    the last statement is [return nil, nil]. *)
Definition parseTPMAuthPolicy (der : String)
  : result (list TPMAuthPolicy * String) :=
  let authPolicy : list TPMAuthPolicy := [] in
  match ReadOptionalASN1 der (ctx 3) with
  | None => Err "should have authPolicy, failed reading"
  | Some (sAuthPolicy, hasAuthPolicy, der) =>
  if negb hasAuthPolicy then Ok (authPolicy, der)
  else
  match ReadASN1 sAuthPolicy SEQUENCE with
  | None => Err "malformed auth policy sequence"
  | Some (authPolicySequence, _) =>
  if negb (Empty authPolicySequence) then
    match ReadASN1 authPolicySequence SEQUENCE with
    | None => Err "malformed auth policy sequence"
    | Some (authPolicyBytes, _) =>
    match ReadOptionalASN1 authPolicyBytes (ctx 0) with
    | None => Err "strip tag from commandCode"
    | Some (nameBytes, hasName, authPolicyBytes) =>
    let named : result bytes :=
      if hasName then
        match ReadASN1 nameBytes UTF8String with
        | None => Err "malformed utf8string in auth policy name"
        | Some (nameB, _) =>
            if negb (utf8.Valid nameB)
            then Err "invalid utf8 bytes in name of auth policy"
            else Ok nameB
        end
      else Ok [] in
    match named with
    | Err e => Err e
    | Ok name =>
    match parseTPMPolicy authPolicyBytes with
    | Err e => Err ("failed parsing tpm policies in auth policy: " ++ e)
    | Ok (tpmpolicies, _) =>
    if len tpmpolicies =? 0
    then Err "tpm policies in auth policy is empty"
    else
      let tpmAuthPolicy := mkTPMAuthPolicy name tpmpolicies in
      Ok ([], der)
    end end end end
  else Ok ([], der)
  end end.

(** The [switch] of [Parse] on the key type. *)
Definition knownKeytype (oid : ObjectIdentifier) : bool :=
  oid_Equal oid OIDLoadableKey
  || oid_Equal oid OIDImportbleKey
  || oid_Equal oid OIDSealedKey
  || oid_Equal oid OIDOldLoadableKey.

(** [Parse] from its second statement on: the DER bytes out of the
    armor. *)
Definition ParseDER (b : bytes) : result TPMKey :=
  (* TPMKey ::= SEQUENCE; [s.ReadASN1(&s, ...)] leaves the contents in s *)
  match ReadASN1 b SEQUENCE with
  | None => Err "no sequence"
  | Some (s, _) =>
  match ReadASN1ObjectIdentifier s with
  | None => Err "no contentinfo oid"
  | Some (oid, s) =>
  if negb (knownKeytype oid) then Err "unknown key type"
  else
  match ReadOptionalASN1 s (ctx 0) with
  | None => Err "should have emptyAuth, failed reading"
  | Some (emptyAuth, hasEmptyAuth, s) =>
  let auth : result bool :=
    if hasEmptyAuth then
      match ReadASN1Boolean emptyAuth with
      | None => Err "no emptyAuth bool"
      | Some (auth, _) => Ok auth
      end
    else Ok false in
  match auth with
  | Err e => Err e
  | Ok tkey_emptyAuth =>
  match parseTPMPolicy s with
  | Err e => Err ("failed reading TPMPolicy: " ++ e)
  | Ok (policy, s) =>
  match ReadOptionalASN1 s (ctx 2) with
  | None => Err "should have secret, failed reading"
  | Some (sSecret, hasSecret, s) =>
  let sec : result bytes :=
    if hasSecret then
      match ReadASN1 sSecret OCTET_STRING with
      | None => Err "could not parse secret"
      | Some (secret, _) => Ok secret
      end
    else Ok [] in
  match sec with
  | Err e => Err e
  | Ok tkey_secret =>
  match parseTPMAuthPolicy s with
  | Err e => Err ("failed reading TPMAuthPolicy: " ++ e)
  | Ok (authPolicy, s) =>
  match ReadASN1Integer s with
  | None => Err "failed reading parent"
  | Some (parent, s) =>
  match ReadASN1 s OCTET_STRING with
  | None => Err "could not parse pubkey"
  | Some (pubkey, s) =>
  match ReadASN1 s OCTET_STRING with
  | None => Err "could not parse privkey"
  | Some (privkey, s) =>
      Ok (mkTPMKey oid tkey_emptyAuth policy tkey_secret authPolicy
                   parent pubkey privkey)
  end end end end end end end end end end end.

(** Modelled from the spec: the encoder ([Marshal], and [Encode] around
    it) is not among the sources.  It writes the wire format of the
    spec's external-interfaces section in DER, field by field in the
    order the parser reads them.  [TPMKey] holds no presence bits, so an
    optional field is written when the key carries a value for it: the
    emptyAuth wrapper when the flag is true, the policy, secret and
    authPolicy wrappers when the field is not empty. *)
Definition marshalPolicy (p : TPMPolicy) : bytes :=
  AddASN1 SEQUENCE
    (AddASN1 (ctx 0) (AddASN1Int64 (commandCode p))
     ++ AddASN1 (ctx 1) (AddASN1OctetString (commandPolicy p))).

(** Modelled from the spec: [policy [1] EXPLICIT SEQUENCE OF TPMPolicy] as
    the absent encoder writes it, under the given tag. *)
Definition marshalPolicies (tag : Z) (ps : list TPMPolicy) : bytes :=
  AddASN1 tag (AddASN1 SEQUENCE (flat_map marshalPolicy ps)).

(** Modelled from the spec: [TPMAuthPolicy ::= SEQUENCE { name [0]
    EXPLICIT UTF8String OPTIONAL, policy [1] EXPLICIT SEQUENCE OF
    TPMPolicy }] as the absent encoder writes it, the name when it is not
    empty. *)
Definition marshalAuthPolicy (a : TPMAuthPolicy) : bytes :=
  AddASN1 SEQUENCE
    ((if Empty (name a) then []
      else AddASN1 (ctx 0) (AddASN1 UTF8String (name a)))
     ++ marshalPolicies (ctx 1) (ap_policy a)).

(** Modelled from the spec: the optional fields of the absent encoder,
    between the type and the parent. *)
Definition marshalOptional (k : TPMKey) : bytes :=
  (if emptyAuth k then AddASN1 (ctx 0) (AddASN1Boolean true) else [])
  ++ (if len (policy k) =? 0 then []
      else marshalPolicies (ctx 1) (policy k))
  ++ (if Empty (secret k) then []
      else AddASN1 (ctx 2) (AddASN1OctetString (secret k)))
  ++ (if len (authPolicy k) =? 0 then []
      else AddASN1 (ctx 3)
             (AddASN1 SEQUENCE (flat_map marshalAuthPolicy (authPolicy k)))).

(** Modelled from the spec: [Marshal], the absent encoder of a key into
    DER. *)
Definition Marshal (k : TPMKey) : bytes :=
  AddASN1 SEQUENCE
    (AddASN1ObjectIdentifier (keytype k)
     ++ marshalOptional k
     ++ AddASN1Int64 (Parent k)
     ++ AddASN1OctetString (Pubkey k)
     ++ AddASN1OctetString (Privkey k)).

(** The keys whose encoding the parser reads back in full: a recognized
    type, at most one policy, no authPolicy, integers that are Go ints,
    and an encoding within the 32-bit lengths the reader accepts. *)
Definition parseable (k : TPMKey) : bool :=
  knownKeytype (keytype k)
  && (len (policy k) <=? 1)
  && (len (authPolicy k) =? 0)
  && forallb (fun p => int64_range (commandCode p)) (policy k)
  && int64_range (Parent k)
  && (len (Marshal k) <? 2 ^ 32).


Section Armor.

(** [encoding/pem]: a block's type and bytes; [pem.Decode] is taken as
    given. *)
Record Block : Type := mkBlock { BlockType : string; Bytes : bytes }.

Variable pem_Decode : bytes -> option Block.

Definition unwrapPEM (p : bytes) : result bytes :=
  match pem_Decode p with
  | None => Err "not an armored key"
  | Some block =>
      if String.eqb (BlockType block) "TSS2 PRIVATE KEY" then Ok (Bytes block)
      else Err ErrNotTPMKey
  end.

Definition Parse (b : bytes) : result TPMKey :=
  match unwrapPEM b with
  | Err e => Err e
  | Ok b => ParseDER b
  end.

(** Modelled from the spec: [Encode] armors the DER encoding under the
    label the parser expects; [pem.Encode] is taken as given. *)
Variable pem_Encode : Block -> bytes.


End Armor.

End keyfiles.

(** ** Package keyfile: the key entity *)

(** A Go call either returns or panics. *)
Inductive outcome (A : Type) : Type :=
| Returns (a : A)
| Panics (msg : string).
Arguments Returns {A} a.
Arguments Panics {A} msg.

(** [big.NewInt(0).SetBytes(buf)]: the big-endian unsigned value. *)
Definition SetBytes (buf : bytes) : Z :=
  fold_left (fun acc b => acc * 256 + byte_val b) buf 0.

(** github.com/google/go-tpm/tpm2, as far as the key entity reads it. *)
Module tpm2.

Definition TPMAlgRSA : Z := 1.
Definition TPMAlgECC : Z := 35.

Definition TPMECCNistP192 : Z := 1.
Definition TPMECCNistP224 : Z := 2.
Definition TPMECCNistP256 : Z := 3.
Definition TPMECCNistP384 : Z := 4.
Definition TPMECCNistP521 : Z := 5.

Definition TPMRHOwner : Z := 1073741825.

Record TPMAObject : Type := mkTPMAObject {
  Decrypt : bool;
  SignEncrypt : bool
}.

Record TPMSECCParms : Type := mkTPMSECCParms { CurveID : Z }.
Record TPMSRSAParms : Type := mkTPMSRSAParms { KeyBits : Z; Exponent : Z }.

Record TPMSECCPoint : Type := mkTPMSECCPoint { X : bytes; Y : bytes }.

(** [TPMUPublicParms] and [TPMUPublicID]: a selector and its contents. *)
Inductive TPMUPublicParms : Type :=
| ParmsECC (p : TPMSECCParms)
| ParmsRSA (p : TPMSRSAParms)
| ParmsOther (selector : Z).

Inductive TPMUPublicID : Type :=
| UniqueECC (p : TPMSECCPoint)
| UniqueRSA (buffer : bytes)
| UniqueOther (selector : Z).

Record TPMTPublic : Type := mkTPMTPublic {
  Type_ : Z;
  ObjectAttributes : TPMAObject;
  Parameters : TPMUPublicParms;
  Unique : TPMUPublicID
}.

Definition ECCDetail (u : TPMUPublicParms) : result TPMSECCParms :=
  match u with
  | ParmsECC p => Ok p
  | _ => Err "did not contain eccDetail"
  end.

Definition RSADetail (u : TPMUPublicParms) : result TPMSRSAParms :=
  match u with
  | ParmsRSA p => Ok p
  | _ => Err "did not contain rsaDetail"
  end.

Definition ECC (u : TPMUPublicID) : result TPMSECCPoint :=
  match u with
  | UniqueECC p => Ok p
  | _ => Err "did not contain ecc"
  end.

Definition RSA (u : TPMUPublicID) : result bytes :=
  match u with
  | UniqueRSA b => Ok b
  | _ => Err "did not contain rsa"
  end.

(** A [TPM2B] holds either the structure ([New2B]) or its marshalled
    bytes ([BytesAs2B]). *)
Inductive TPM2B (T : Type) : Type :=
| New2B (contents : T)
| BytesAs2B (buffer : bytes).
Arguments New2B {T} contents.
Arguments BytesAs2B {T} buffer.

Definition TPM2BPublic := TPM2B TPMTPublic.

(** [Contents()]: the structure when held, else the buffer unmarshalled
    by [Unmarshal], the library's TPMT_PUBLIC decoder. *)
Definition Contents (Unmarshal : bytes -> result TPMTPublic)
           (value : TPM2BPublic) : result TPMTPublic :=
  match value with
  | New2B c => Ok c
  | BytesAs2B b => Unmarshal b
  end.

End tpm2.

Module keyfile.
Import tpm2.

Inductive Curve : Type := P224 | P256 | P384 | P521.

Record ecdsa_PublicKey : Type := mk_ecdsa_PublicKey {
  ecdsa_Curve : Curve;
  ecdsa_X : Z;
  ecdsa_Y : Z
}.

Record rsa_PublicKey : Type := mk_rsa_PublicKey { rsa_N : Z; rsa_E : Z }.

(** The dynamic values [PublicKey] returns as [any]: nil, or a pointer of
    one of the two key types, itself nil or not. *)
Inductive any : Type :=
| any_nil
| any_ecdsa (pk : option ecdsa_PublicKey)
| any_rsa (pk : option rsa_PublicKey).

Record TPMPolicy : Type := mkTPMPolicy {
  CommandCode : Z;
  CommandPolicy : bytes
}.

Record TPMAuthPolicy : Type := mkTPMAuthPolicy {
  Name : string;
  Policy_ : list TPMPolicy
}.

Record TPMKey : Type := mkTPMKey {
  Keytype : ObjectIdentifier;
  EmptyAuth : bool;
  Policy : list TPMPolicy;
  Secret : bytes;
  AuthPolicy : list TPMAuthPolicy;
  Description : string;
  Parent : Z;
  Pubkey : TPM2BPublic;
  Privkey : bytes;
  userAuth : bytes
}.

(** [tpm2.RSAPub]: the modulus from the unique bytes, the exponent from
    the parameters, 0 standing for 65537. *)
Definition RSAPub (parms : TPMSRSAParms) (pub : bytes) : result rsa_PublicKey :=
  let E := Exponent parms in
  Ok (mk_rsa_PublicKey (SetBytes pub) (if E =? 0 then 65537 else E)).

(** Modelled from the spec: the signer handle [NewTPMKeySigner] builds is
    not among the sources; it holds the key and the three providers it
    is given. *)
Record TPMKeySigner (TPMCloser : Type) : Type := NewTPMKeySigner {
  signer_key : TPMKey;
  signer_ownerAuth : unit -> result bytes;
  signer_tpm : unit -> TPMCloser;
  signer_auth : TPMKey -> result bytes
}.

Section Entity.

(** The TPMT_PUBLIC decoder behind [Pubkey.Contents()], and the two
    verification primitives of crypto/ecdsa and crypto/rsa.  A nil
    error of [rsa.VerifyPKCS1v15] is [None]. *)
Variable Unmarshal : bytes -> result TPMTPublic.
Variable ecdsa_VerifyASN1 : ecdsa_PublicKey -> bytes -> bytes -> bool.
Variable Hash : Type.
Variable rsa_VerifyPKCS1v15 :
  rsa_PublicKey -> Hash -> bytes -> bytes -> option string.
Variable TPMCloser : Type.

Definition HasSinger (t : TPMKey) : outcome bool :=
  match Contents Unmarshal (Pubkey t) with
  | Err _ => Panics "can't serialize public key"
  | Ok pub => Returns (SignEncrypt (ObjectAttributes pub))
  end.

Definition HasAuth (t : TPMKey) : bool := negb (EmptyAuth t).

Definition KeyAlgo (t : TPMKey) : outcome Z :=
  match Contents Unmarshal (Pubkey t) with
  | Err _ => Panics "can't serialize public key"
  | Ok pub => Returns (Type_ pub)
  end.

(** [ecdsaPubKey]: the key pointer and the error, either of which can
    be nil. *)
Definition ecdsaPubKey (t : TPMKey)
  : option ecdsa_PublicKey * option string :=
  match Contents Unmarshal (Pubkey t) with
  | Err _ => (None, Some "can't serialize public key contents"%string)
  | Ok pub =>
  match ECC (Unique pub) with
  | Err e => (None, Some e)
  | Ok ecc =>
  match ECCDetail (Parameters pub) with
  | Err e => (None, Some e)
  | Ok eccdeets =>
      let ecdsaKey : option ecdsa_PublicKey :=
        if CurveID eccdeets =? TPMECCNistP256 then
          Some (mk_ecdsa_PublicKey P256 (SetBytes (X ecc)) (SetBytes (Y ecc)))
        else if CurveID eccdeets =? TPMECCNistP384 then
          Some (mk_ecdsa_PublicKey P384 (SetBytes (X ecc)) (SetBytes (Y ecc)))
        else if CurveID eccdeets =? TPMECCNistP521 then
          Some (mk_ecdsa_PublicKey P521 (SetBytes (X ecc)) (SetBytes (Y ecc)))
        else None in
      (ecdsaKey, None)
  end end end.

Definition rsaPubKey (t : TPMKey) : option rsa_PublicKey * option string :=
  match Contents Unmarshal (Pubkey t) with
  | Err _ => (None, Some "can't serialize public key contents"%string)
  | Ok pub =>
  match RSADetail (Parameters pub) with
  | Err e => (None, Some ("failed getting rsa details: " ++ e)%string)
  | Ok rsaDetail =>
  match RSA (Unique pub) with
  | Err e => (None, Some ("failed getting unique rsa: " ++ e)%string)
  | Ok rsaUnique =>
      match RSAPub rsaDetail rsaUnique with
      | Ok k => (Some k, None)
      | Err e => (None, Some e)
      end
  end end end.

Definition PublicKey (t : TPMKey) : outcome (any * option string) :=
  match KeyAlgo t with
  | Panics m => Panics m
  | Returns alg =>
      if alg =? TPMAlgECC then
        let '(k, err) := ecdsaPubKey t in Returns (any_ecdsa k, err)
      else if alg =? TPMAlgRSA then
        let '(k, err) := rsaPubKey t in Returns (any_rsa k, err)
      else Returns (any_nil, Some "no public key"%string)
  end.

Definition Signer (t : TPMKey) (tpm : TPMCloser) (ownerAuth auth : bytes)
  : outcome (option (TPMKeySigner TPMCloser) * option string) :=
  match HasSinger t with
  | Panics m => Panics m
  | Returns has =>
      if negb has
      then Returns (None, Some "does not have sign/encrypt attribute set"%string)
      else Returns
             (Some (NewTPMKeySigner t
                      (fun _ => Ok ownerAuth)
                      (fun _ => tpm)
                      (fun _ => Ok auth)),
              None)
  end.

(** [Verify].  A nil [*ecdsa.PublicKey] or [*rsa.PublicKey] reaching
    the primitive is dereferenced there. *)
Definition Verify (t : TPMKey) (alg : Hash) (hashed sig : bytes)
  : outcome (bool * option string) :=
  match PublicKey t with
  | Panics m => Panics m
  | Returns (_, Some err) =>
      Returns (false, Some ("failed getting pubkey: " ++ err)%string)
  | Returns (pubkey, None) =>
      match pubkey with
      | any_ecdsa (Some pk) =>
          if negb (ecdsa_VerifyASN1 pk hashed sig)
          then Returns (false, Some "invalid signature"%string)
          else Returns (true, None)
      | any_ecdsa None =>
          Panics "invalid memory address or nil pointer dereference"
      | any_rsa (Some pk) =>
          match rsa_VerifyPKCS1v15 pk alg hashed sig with
          | Some err =>
              Returns (false, Some ("signature verification failed: " ++ err)%string)
          | None => Returns (true, None)
          end
      | any_rsa None =>
          Panics "invalid memory address or nil pointer dereference"
      | any_nil => Returns (true, None)
      end
  end.

End Entity.

(** A [TPMKeyOption] sets fields of the key it is given. *)
Definition TPMKeyOption : Type := TPMKey -> TPMKey.

(** [AddOptions]: runs the options over the key, in the order given. *)
Definition AddOptions (t : TPMKey) (fn : list TPMKeyOption) : TPMKey :=
  fold_left (fun key f => f key) fn t.

(** [var key TPMKey]: every field at its zero value. *)
Definition zeroTPMKey : TPMKey :=
  mkTPMKey [] false [] [] [] "" 0 (BytesAs2B []) [] [].

Section Options.

(** The five option constructors [NewTPMKey] calls are declared outside the
    files at hand and are taken as given. *)
Variable WithKeytype : ObjectIdentifier -> TPMKeyOption.
Variable WithUserAuth : bytes -> TPMKeyOption.
Variable WithParent : Z -> TPMKeyOption.
Variable WithPubkey : TPM2BPublic -> TPMKeyOption.
Variable WithPrivkey : bytes -> TPMKeyOption.

(** [NewTPMKey]: the defaults first, then the caller's options. *)
Definition NewTPMKey (oid : ObjectIdentifier) (pubkey : TPM2BPublic)
           (privkey : bytes) (fn : list TPMKeyOption) : TPMKey :=
  let key := zeroTPMKey in
  let key :=
    AddOptions key
      [WithKeytype oid;
       (* we always start of with assuming this key shouldn't have an auth *)
       WithUserAuth [];
       (* start out with setting the Owner as parent *)
       WithParent TPMRHOwner;
       WithPubkey pubkey;
       WithPrivkey privkey] in
  AddOptions key fn.

End Options.

End keyfile.

(** * Example key files *)

Import cryptobyte keyfiles.

(** A loadable key under the owner hierarchy, no optional field. *)
Definition keyPlain : TPMKey :=
  mkTPMKey OIDLoadableKey false [] [] [] 1073741825 [x01; x02] [x03].

Definition derPlain : bytes :=
  [x30; x15; x06; x06; x67; x81; x05; x0a; x01; x03; x02; x04; x40; x00;
   x00; x01; x04; x02; x01; x02; x04; x01; x03].

(** [derPlain] with [emptyAuth [0] EXPLICIT BOOLEAN] present and FALSE. *)
Definition derExplicitFalse : bytes :=
  [x30; x1a; x06; x06; x67; x81; x05; x0a; x01; x03; xa0; x03; x01; x01;
   x00; x02; x04; x40; x00; x00; x01; x04; x02; x01; x02; x04; x01; x03].


Definition policy1 : TPMPolicy := mkTPMPolicy 363 [x0a; x0b].
Definition policy2 : TPMPolicy := mkTPMPolicy 349 [x0c].

(** The policy wrapper around [policy1] and [policy2]. *)
Definition wireTwoPolicies : bytes :=
  [xa1; x1d; x30; x1b; x30; x0c; xa0; x04; x02; x02; x01; x6b; xa1; x04;
   x04; x02; x0a; x0b; x30; x0b; xa0; x04; x02; x02; x01; x5d; xa1; x03;
   x04; x01; x0c].

(** The authPolicy wrapper around one auth-policy, named "A", that holds
    [policy1]. *)
Definition wireAuthPolicy : bytes :=
  [xa3; x1b; x30; x19; x30; x17; xa0; x03; x0c; x01; x41; xa1; x10; x30;
   x0e; x30; x0c; xa0; x04; x02; x02; x01; x6b; xa1; x04; x04; x02; x0a;
   x0b].

(** [derPlain] with [wireAuthPolicy] before the parent. *)
Definition derAuthPolicy : bytes :=
  [x30; x32; x06; x06; x67; x81; x05; x0a; x01; x03; xa3; x1b; x30; x19;
   x30; x17; xa0; x03; x0c; x01; x41; xa1; x10; x30; x0e; x30; x0c; xa0;
   x04; x02; x02; x01; x6b; xa1; x04; x04; x02; x0a; x0b; x02; x04; x40;
   x00; x00; x01; x04; x02; x01; x02; x04; x01; x03].



(** A sealed key with emptyAuth, one policy and a secret. *)
Definition keySealed : TPMKey :=
  mkTPMKey OIDSealedKey true [policy1] [x09] [] 1073741825 [x01; x02] [x03].

(** [keySealed] on the wire. *)
Definition derSealedKey : bytes :=
  [x30; x31; x06; x06; x67; x81; x05; x0a; x01; x05; xa0; x03; x01; x01;
   xff; xa1; x10; x30; x0e; x30; x0c; xa0; x04; x02; x02; x01; x6b; xa1;
   x04; x04; x02; x0a; x0b; xa2; x03; x04; x01; x09; x02; x04; x40; x00;
   x00; x01; x04; x02; x01; x02; x04; x01; x03].

(** The four key types [Parse] accepts. *)
Definition recognized : list ObjectIdentifier :=
  [OIDLoadableKey; OIDImportbleKey; OIDSealedKey; OIDOldLoadableKey].


(** An armor decoder for the examples: the input is the contents of a
    TSS2 PRIVATE KEY block. *)
Definition bareBlock (p : bytes) : option Block :=
  Some (mkBlock "TSS2 PRIVATE KEY" p).

(** Public areas for the entity examples: an ECC signing key on the given
    curve, and an ECC key without the sign attribute. *)
Definition eccPublic (curve : Z) (sign : bool) : tpm2.TPMTPublic :=
  tpm2.mkTPMTPublic tpm2.TPMAlgECC (tpm2.mkTPMAObject false sign)
    (tpm2.ParmsECC (tpm2.mkTPMSECCParms curve))
    (tpm2.UniqueECC (tpm2.mkTPMSECCPoint [x01; x00] [x02])).

Definition entityKey (pub : tpm2.TPM2BPublic) : keyfile.TPMKey :=
  keyfile.mkTPMKey OIDLoadableKey true [] [] [] "" tpm2.TPMRHOwner pub
                   [x03] [].

(** A TPMT_PUBLIC decoder for the examples that rejects every buffer; the
    example keys built with [New2B] never reach it. *)
Definition noUnmarshal (b : bytes) : result tpm2.TPMTPublic :=
  Err "unexpected EOF".

(** The P-256 example key and its reconstructed public key. *)
Definition keyP256 : keyfile.TPMKey :=
  entityKey (tpm2.New2B (eccPublic tpm2.TPMECCNistP256 true)).


(** A public area of an RSA key with the default exponent, and one of a
    keyed-hash object, as a sealed key has. *)
Definition rsaPublic : tpm2.TPMTPublic :=
  tpm2.mkTPMTPublic tpm2.TPMAlgRSA (tpm2.mkTPMAObject true true)
    (tpm2.ParmsRSA (tpm2.mkTPMSRSAParms 2048 0))
    (tpm2.UniqueRSA [x01; x00; x01]).

Definition keyedHashPublic : tpm2.TPMTPublic :=
  tpm2.mkTPMTPublic 8 (tpm2.mkTPMAObject false false)
    (tpm2.ParmsOther 8) (tpm2.UniqueOther 8).

(** [eccPublic] with the coordinates given. *)
Definition eccPublicAt (x y : bytes) : tpm2.TPMTPublic :=
  tpm2.mkTPMTPublic tpm2.TPMAlgECC (tpm2.mkTPMAObject false true)
    (tpm2.ParmsECC (tpm2.mkTPMSECCParms tpm2.TPMECCNistP256))
    (tpm2.UniqueECC (tpm2.mkTPMSECCPoint x y)).

(** An armor decoder for the examples that finds no block, and one that
    finds a block of another type. *)
Definition noBlock (p : bytes) : option Block := None.

Definition otherBlock (p : bytes) : option Block :=
  Some (mkBlock "RSA PRIVATE KEY" p).

(** * Properties *)

(** Inversion of a successful parse: case analysis on every read. *)
Ltac parse_cases H :=
  repeat match type of H with
         | context [match ?x with _ => _ end] =>
             destruct x eqn:?; try discriminate H
         | context [if ?x then _ else _] =>
             destruct x eqn:?; try discriminate H
         end.

(** The side conditions of reading back an element: the tag is a byte in
    low-tag-number form and the element is shorter than 2^32 bytes. *)
Ltac asn1_side :=
  try discriminate; first [assumption | lia | cbv; intuition discriminate].

(** ** Bytes and lengths *)

Lemma byte_val_range (b : byte) : 0 <= byte_val b < 256.
Proof.
  unfold byte_val. pose proof (Byte.to_N_bounded b) as H. lia.
Qed.

Lemma byte_val_of_Z (z : Z) : byte_val (byte_of_Z z) = z mod 256.
Proof.
  unfold byte_val, byte_of_Z.
  assert (Hr : 0 <= z mod 256 < 256) by (apply Z.mod_pos_bound; lia).
  destruct (Byte.of_N (Z.to_N (z mod 256))) as [b|] eqn:E.
  - apply Byte.to_of_N in E. rewrite E. lia.
  - apply Byte.of_N_None_iff in E. lia.
Qed.

Lemma byte_val_of_Z_small (z : Z) : 0 <= z < 256 -> byte_val (byte_of_Z z) = z.
Proof. intros H. rewrite byte_val_of_Z. apply Z.mod_small; lia. Qed.

Lemma len_nil (A : Type) : len (@nil A) = 0.
Proof. reflexivity. Qed.

Lemma len_cons (A : Type) (a : A) l : len (a :: l) = 1 + len l.
Proof. unfold len. cbn [List.length]. lia. Qed.

Lemma len_app (A : Type) (l1 l2 : list A) : len (l1 ++ l2) = len l1 + len l2.
Proof. unfold len. rewrite length_app. lia. Qed.

Lemma len_nonneg (A : Type) (l : list A) : 0 <= len l.
Proof. unfold len. lia. Qed.

Lemma read_app (a r : bytes) (n : Z) :
  n = len a -> read (a ++ r) n = Some (a, r).
Proof.
  intros ->. unfold read.
  rewrite len_app.
  pose proof (len_nonneg a). pose proof (len_nonneg r).
  replace (len a + len r <? len a) with false by (symmetry; apply Z.ltb_ge; lia).
  replace (len a <? 0) with false by (symmetry; apply Z.ltb_ge; lia).
  cbn [orb]. unfold len. rewrite Nat2Z.id.
  rewrite firstn_app, skipn_app, Nat.sub_diag, firstn_all, skipn_all.
  cbn. rewrite app_nil_r. reflexivity.
Qed.

(** lor of a multiple of 2^k with something below 2^k is addition *)
Lemma lor_low (a b k : Z) :
  0 <= k -> 0 <= b < 2 ^ k -> Z.lor (a * 2 ^ k) b = a * 2 ^ k + b.
Proof.
  intros Hk Hb.
  rewrite <- Z.add_lor_land.
  replace (Z.land (a * 2 ^ k) b) with 0; [lia|].
  symmetry. apply Z.bits_inj'. intros n Hn.
  rewrite Z.land_spec, Z.bits_0.
  destruct (Z.lt_ge_cases n k).
  - rewrite Z.mul_pow2_bits_low by lia. reflexivity.
  - assert (Hbit : Z.testbit b n = false).
    { destruct (Z.eq_dec b 0) as [->|]; [apply Z.bits_0|].
      apply Z.bits_above_log2; [lia|].
      apply Z.lt_le_trans with k; [|lia]. apply Z.log2_lt_pow2; lia. }
    rewrite Hbit. apply andb_false_r.
Qed.

Lemma readUnsigned_snoc (l : bytes) (b : byte) :
  readUnsigned (l ++ [b])
  = Z.lor (Z.shiftl (readUnsigned l) 8 mod 2 ^ 32) (byte_val b).
Proof. unfold readUnsigned. rewrite fold_left_app. reflexivity. Qed.

Lemma be_bytes_spec (f : nat) :
  forall n, 0 <= n < 256 ^ Z.of_nat f ->
  (n = 0 /\ len (be_bytes f n) = 0)
  \/ (0 < n /\ 1 <= len (be_bytes f n)
      /\ 256 ^ (len (be_bytes f n) - 1) <= n < 256 ^ len (be_bytes f n)).
Proof.
  induction f as [|f IH]; intros n Hn.
  - left. cbn in *. split; [lia|reflexivity].
  - cbn [be_bytes]. destruct (Z.leb_spec n 0) as [H0|H0].
    + left. split; [lia|reflexivity].
    + right. rewrite len_app, len_cons, len_nil.
      rewrite Nat2Z.inj_succ, Z.pow_succ_r in Hn by lia.
      assert (Hq : 0 <= n / 256 < 256 ^ Z.of_nat f).
      { split; [apply Z.div_pos; lia|]. apply Z.div_lt_upper_bound; lia. }
      pose proof (Z.div_mod n 256 ltac:(lia)) as Hdm.
      pose proof (Z.mod_pos_bound n 256 ltac:(lia)) as Hm.
      destruct (IH _ Hq) as [[Hz HL]|[Hpos [HL Hr]]].
      * rewrite HL. cbn. lia.
      * split; [lia|]. split; [lia|].
        replace (len (be_bytes f (n / 256)) + (1 + 0) - 1)
          with (Z.succ (len (be_bytes f (n / 256)) - 1)) by lia.
        replace (len (be_bytes f (n / 256)) + (1 + 0))
          with (Z.succ (len (be_bytes f (n / 256)))) by lia.
        rewrite !Z.pow_succ_r by lia. lia.
Qed.

Lemma readUnsigned_be_bytes (f : nat) :
  forall n, 0 <= n < 2 ^ 32 -> n < 256 ^ Z.of_nat f ->
  readUnsigned (be_bytes f n) = n.
Proof.
  induction f as [|f IH]; intros n Hn Hf.
  - cbn in *. assert (n = 0) by lia. subst. reflexivity.
  - cbn [be_bytes]. destruct (Z.leb_spec n 0) as [H0|H0].
    + assert (n = 0) by lia. subst. reflexivity.
    + rewrite readUnsigned_snoc, byte_val_of_Z.
      rewrite Nat2Z.inj_succ, Z.pow_succ_r in Hf by lia.
      assert (Hq : 0 <= n / 256 < 256 ^ Z.of_nat f).
      { split; [apply Z.div_pos; lia|]. apply Z.div_lt_upper_bound; lia. }
      pose proof (Z.div_mod n 256 ltac:(lia)) as Hdm.
      pose proof (Z.mod_pos_bound n 256 ltac:(lia)) as Hm.
      rewrite IH by lia.
      rewrite Z.shiftl_mul_pow2 by lia.
      rewrite Z.mod_small by lia.
      rewrite lor_low by lia. lia.
Qed.

Lemma land_pow2_small (n k : Z) :
  0 <= k -> 0 <= n < 2 ^ k -> Z.land n (2 ^ k) = 0.
Proof.
  intros Hk Hn. apply Z.bits_inj'. intros i Hi.
  rewrite Z.land_spec, Z.bits_0, Z.pow2_bits_eqb by lia.
  destruct (Z.eqb_spec k i) as [->|]; [|apply andb_false_r].
  destruct (Z.eq_dec n 0) as [->|]; [rewrite Z.bits_0; reflexivity|].
  rewrite Z.bits_above_log2; [reflexivity|lia|].
  apply Z.log2_lt_pow2; lia.
Qed.

Lemma skipn_len_app (A : Type) (a r : list A) (n : Z) :
  n = len a -> skipn (Z.to_nat n) (a ++ r) = r.
Proof.
  intros ->. unfold len. rewrite Nat2Z.id, skipn_app, Nat.sub_diag, skipn_all.
  reflexivity.
Qed.

Lemma firstn_len_app (A : Type) (a r : list A) (n : Z) :
  n = len a -> firstn (Z.to_nat n) (a ++ r) = a.
Proof.
  intros ->. unfold len. rewrite Nat2Z.id, firstn_app, Nat.sub_diag, firstn_all.
  cbn. apply app_nil_r.
Qed.

(** Reading back what [AddASN1] wrote. *)
Lemma ReadAnyASN1_AddASN1 (tag : Z) (body rest : bytes) :
  0 <= tag < 256 -> Z.land tag 31 <> 31 ->
  len (AddASN1 tag body) < 2 ^ 32 ->
  ReadAnyASN1 (AddASN1 tag body ++ rest) = Some (tag, body, rest).
Proof.
  intros Htag H31 Hlen.
  unfold AddASN1 in *. rewrite len_cons, len_app in Hlen.
  pose proof (len_nonneg body) as Hb.
  pose proof (len_nonneg (lengthOctets (len body))) as Hlo.
  unfold lengthOctets in *.
  destruct (Z.ltb_spec (len body) 128) as [Hs|Hs].
  - (* short form *)
    cbn [app]. unfold ReadAnyASN1.
    rewrite !byte_val_of_Z_small by lia.
    replace (Z.land tag 31 =? 31) with false by (symmetry; apply Z.eqb_neq; exact H31).
    pose proof (land_pow2_small (n := len body) (k := 7) ltac:(lia) ltac:(lia)) as H7.
    change (2 ^ 7) with 128 in H7. rewrite H7.
    change (0 =? 0) with true. cbv iota.
    change (byte_of_Z tag :: byte_of_Z (len body) :: body ++ rest)
      with ((byte_of_Z tag :: byte_of_Z (len body) :: body) ++ rest).
    rewrite read_app by (rewrite !len_cons; lia).
    change (Z.to_nat 2) with 2%nat. cbn [skipn]. reflexivity.
  - (* long form *)
    set (bs := be_bytes 8 (len body)) in *.
    rewrite len_cons in Hlen.
    pose proof (len_nonneg bs) as Hbs.
    assert (H8 : len body < 256 ^ Z.of_nat 8) by (change (256 ^ Z.of_nat 8) with (2 ^ 64); lia).
    destruct (be_bytes_spec 8 (n := len body) ltac:(lia)) as [[? _]|[_ [HL1 HLr]]]; [lia|].
    fold bs in HL1, HLr.
    assert (HL4 : len bs <= 4).
    { destruct (Z.le_gt_cases (len bs) 4) as [|Hgt]; [assumption|exfalso].
      assert (256 ^ 4 <= 256 ^ (len bs - 1)) by (apply Z.pow_le_mono_r; lia).
      change (256 ^ 4) with (2 ^ 32) in *. lia. }
    assert (Hru : readUnsigned bs = len body)
      by (apply readUnsigned_be_bytes; lia).
    cbn [app]. unfold ReadAnyASN1.
    rewrite byte_val_of_Z_small by lia.
    replace (Z.land tag 31 =? 31) with false by (symmetry; apply Z.eqb_neq; exact H31).
    assert (HlenByte : byte_val (byte_of_Z (Z.lor 128 (len bs))) = 128 + len bs).
    { assert (Hc : len bs = 1 \/ len bs = 2 \/ len bs = 3 \/ len bs = 4) by lia.
      destruct Hc as [E|[E|[E|E]]]; rewrite E; reflexivity. }
    rewrite HlenByte.
    assert (Hl128 : (Z.land (128 + len bs) 128 =? 0) = false).
    { assert (Hc : len bs = 1 \/ len bs = 2 \/ len bs = 3 \/ len bs = 4) by lia.
      destruct Hc as [E|[E|[E|E]]]; rewrite E; reflexivity. }
    assert (Hl127 : Z.land (128 + len bs) 127 = len bs).
    { assert (Hc : len bs = 1 \/ len bs = 2 \/ len bs = 3 \/ len bs = 4) by lia.
      destruct Hc as [E|[E|[E|E]]]; rewrite E; reflexivity. }
    rewrite Hl128, Hl127.
    replace (len bs =? 0) with false by (symmetry; apply Z.eqb_neq; lia).
    replace (4 <? len bs) with false by (symmetry; apply Z.ltb_ge; lia).
    rewrite !len_cons, !len_app.
    pose proof (len_nonneg rest).
    replace (1 + (1 + (len bs + len body + len rest)) <? 2 + len bs) with false
      by (symmetry; apply Z.ltb_ge; lia).
    cbn [orb].
    change (Z.to_nat 2) with 2%nat. cbn [skipn].
    rewrite <- app_assoc, firstn_len_app by reflexivity.
    rewrite Hru.
    replace (len body <? 128) with false by (symmetry; apply Z.ltb_ge; lia).
    assert (Hsh : (Z.shiftr (len body) ((len bs - 1) * 8) =? 0) = false).
    { apply Z.eqb_neq. rewrite Z.shiftr_div_pow2 by lia.
      replace (2 ^ ((len bs - 1) * 8)) with (256 ^ (len bs - 1)).
      2:{ change 256 with (2 ^ 8). rewrite <- Z.pow_mul_r by lia. f_equal. lia. }
      assert (0 < 256 ^ (len bs - 1)) by (apply Z.pow_pos_nonneg; lia).
      assert (1 <= len body / 256 ^ (len bs - 1)); [|lia].
      apply Z.div_le_lower_bound; lia. }
    rewrite Hsh.
    rewrite (Z.mod_small (2 + len bs + len body)) by lia.
    replace (2 + len bs + len body <? len body) with false
      by (symmetry; apply Z.ltb_ge; lia).
    change (byte_of_Z tag :: byte_of_Z (Z.lor 128 (len bs)) :: bs ++ body ++ rest)
      with ((byte_of_Z tag :: byte_of_Z (Z.lor 128 (len bs)) :: bs) ++ body ++ rest).
    rewrite app_assoc.
    rewrite read_app by (rewrite len_app, !len_cons; lia).
    rewrite skipn_len_app by (rewrite !len_cons; lia).
    reflexivity.
Qed.

Lemma ReadASN1_AddASN1 (tag : Z) (body rest : bytes) :
  0 <= tag < 256 -> Z.land tag 31 <> 31 ->
  len (AddASN1 tag body) < 2 ^ 32 ->
  ReadASN1 (AddASN1 tag body ++ rest) tag = Some (body, rest).
Proof.
  intros. unfold ReadASN1. rewrite ReadAnyASN1_AddASN1 by assumption.
  rewrite Z.eqb_refl. reflexivity.
Qed.

Lemma PeekASN1Tag_AddASN1 (tag t : Z) (body rest : bytes) :
  0 <= tag < 256 ->
  PeekASN1Tag (AddASN1 tag body ++ rest) t = (tag =? t).
Proof.
  intros. unfold AddASN1. cbn [app PeekASN1Tag].
  rewrite byte_val_of_Z_small by assumption. reflexivity.
Qed.

Lemma ReadOptionalASN1_present (tag : Z) (body rest : bytes) :
  0 <= tag < 256 -> Z.land tag 31 <> 31 ->
  len (AddASN1 tag body) < 2 ^ 32 ->
  ReadOptionalASN1 (AddASN1 tag body ++ rest) tag = Some (body, true, rest).
Proof.
  intros. unfold ReadOptionalASN1.
  rewrite PeekASN1Tag_AddASN1, Z.eqb_refl by assumption.
  rewrite ReadASN1_AddASN1 by assumption. reflexivity.
Qed.

Lemma ReadOptionalASN1_absent (s : bytes) (tag : Z) :
  PeekASN1Tag s tag = false ->
  ReadOptionalASN1 s tag = Some ([], false, s).
Proof. intros H. unfold ReadOptionalASN1. rewrite H. reflexivity. Qed.

Lemma len_AddASN1_ge (tag : Z) (body : bytes) :
  len body + 2 <= len (AddASN1 tag body).
Proof.
  unfold AddASN1, lengthOctets. rewrite len_cons, len_app.
  destruct (len body <? 128); rewrite !len_cons.
  - rewrite len_nil. lia.
  - pose proof (len_nonneg (be_bytes 8 (len body))). lia.
Qed.

(** *** Integers *)

Lemma int64_small (z : Z) : - 2 ^ 63 <= z < 2 ^ 63 -> int64 z = z.
Proof. intros H. unfold int64. rewrite Z.mod_small; lia. Qed.

Lemma int64_add_mul (z k : Z) : int64 (z + k * 2 ^ 64) = int64 z.
Proof.
  unfold int64. replace (z + k * 2 ^ 64 + 2 ^ 63) with (z + 2 ^ 63 + k * 2 ^ 64) by ring.
  rewrite Z_mod_plus_full. reflexivity.
Qed.

Lemma int64_decomp (z : Z) : exists k, int64 z = z + k * 2 ^ 64.
Proof.
  exists (- ((z + 2 ^ 63) / 2 ^ 64)). unfold int64.
  pose proof (Z.div_mod (z + 2 ^ 63) (2 ^ 64) ltac:(lia)). lia.
Qed.

Lemma land_255 (z : Z) : Z.land z 255 = z mod 256.
Proof. change 255 with (Z.ones 8). rewrite Z.land_ones by lia. reflexivity. Qed.

Lemma pow256 (m : Z) : 0 <= m -> 2 ^ (m * 8) = 256 ^ m.
Proof.
  intros. change 256 with (2 ^ 8). rewrite <- Z.pow_mul_r by lia. f_equal. lia.
Qed.

Lemma len_signedBytes (n : nat) (v : Z) : len (signedBytes n v) = Z.of_nat n.
Proof.
  induction n as [|n IH]; [reflexivity|].
  cbn [signedBytes]. rewrite len_cons, IH. lia.
Qed.

Lemma signedStep_eq (out : Z) (b : byte) :
  signedStep out b = int64 (out * 256 + byte_val b).
Proof.
  unfold signedStep. rewrite Z.shiftl_mul_pow2 by lia.
  change (2 ^ 8) with 256.
  destruct (int64_decomp (out * 256)) as [k Hk]. rewrite Hk.
  replace (out * 256 + k * 2 ^ 64) with ((out + k * 2 ^ 56) * 2 ^ 8) by ring.
  rewrite lor_low by (pose proof (byte_val_range b); lia).
  replace ((out + k * 2 ^ 56) * 2 ^ 8 + byte_val b)
    with (out * 256 + byte_val b + k * 2 ^ 64) by ring.
  apply int64_add_mul.
Qed.

Lemma fold_signedBytes (v : Z) (m : nat) :
  forall acc,
    fold_left signedStep (signedBytes m v) acc
    = int64 (acc * 256 ^ Z.of_nat m + v mod 256 ^ Z.of_nat m) \/ m = O.
Proof.
  induction m as [|m IH]; intros acc; [right; reflexivity|left].
  cbn [signedBytes fold_left].
  rewrite signedStep_eq, byte_val_of_Z, land_255, Z.mod_mod by lia.
  rewrite Z.shiftr_div_pow2, pow256 by lia.
  assert (Hp : 0 < 256 ^ Z.of_nat m) by (apply Z.pow_pos_nonneg; lia).
  assert (Hv : v mod 256 ^ Z.of_nat (S m)
               = v mod 256 ^ Z.of_nat m
                 + 256 ^ Z.of_nat m * ((v / 256 ^ Z.of_nat m) mod 256)).
  { rewrite Nat2Z.inj_succ, Z.pow_succ_r by lia.
    rewrite (Z.mul_comm 256). apply Z.rem_mul_r; lia. }
  rewrite Hv. rewrite Nat2Z.inj_succ, Z.pow_succ_r by lia.
  set (bv := (v / 256 ^ Z.of_nat m) mod 256).
  destruct (IH (int64 (acc * 256 + bv))) as [E| ->].
  - rewrite E.
    destruct (int64_decomp (acc * 256 + bv)) as [k Hk]. rewrite Hk.
    replace ((acc * 256 + bv + k * 2 ^ 64) * 256 ^ Z.of_nat m + v mod 256 ^ Z.of_nat m)
      with (acc * (256 * 256 ^ Z.of_nat m)
            + (v mod 256 ^ Z.of_nat m + 256 ^ Z.of_nat m * bv)
            + (k * 256 ^ Z.of_nat m) * 2 ^ 64) by ring.
    apply int64_add_mul.
  - cbn [signedBytes fold_left Z.of_nat]. rewrite Z.pow_0_r, Z.mod_1_r.
    f_equal. ring.
Qed.

Lemma asn1Signed_signedBytes (n : nat) (v : Z) :
  (1 <= n <= 8)%nat ->
  - 2 ^ (8 * Z.of_nat n - 1) <= v < 2 ^ (8 * Z.of_nat n - 1) ->
  asn1Signed (signedBytes n v) = Some v.
Proof.
  intros Hn Hv. unfold asn1Signed. rewrite len_signedBytes.
  replace (8 <? Z.of_nat n) with false by (symmetry; apply Z.ltb_ge; lia).
  f_equal.
  destruct (fold_signedBytes v n 0) as [E|E]; [|lia]. rewrite E. clear E.
  rewrite Z.mul_0_l, Z.add_0_l.
  set (N := Z.of_nat n) in *.
  assert (HN : 1 <= N <= 8) by lia.
  assert (Hp : 0 < 256 ^ N) by (apply Z.pow_pos_nonneg; lia).
  assert (Hsplit : 2 ^ 64 = 256 ^ N * 2 ^ (64 - N * 8)).
  { rewrite <- pow256, <- Z.pow_add_r by lia. f_equal. lia. }
  assert (Hhalf : 2 ^ 63 = 2 ^ (8 * N - 1) * 2 ^ (64 - N * 8)).
  { rewrite <- Z.pow_add_r by lia. f_equal. lia. }
  assert (Hs : 0 < 2 ^ (64 - N * 8)) by (apply Z.pow_pos_nonneg; lia).
  rewrite Z.shiftl_mul_pow2 by lia.
  destruct (int64_decomp (v mod 256 ^ N)) as [k Hk]. rewrite Hk.
  pose proof (Z.div_mod v (256 ^ N) ltac:(lia)) as Hdm.
  replace ((v mod 256 ^ N + k * 2 ^ 64) * 2 ^ (64 - N * 8))
    with (v * 2 ^ (64 - N * 8)
          + (k * 2 ^ (64 - N * 8) - v / 256 ^ N) * 2 ^ 64).
  2:{ replace (v mod 256 ^ N) with (v - 256 ^ N * (v / 256 ^ N)) by lia.
      rewrite Hsplit. ring. }
  rewrite int64_add_mul.
  rewrite int64_small by (rewrite Hhalf; nia).
  rewrite Z.shiftr_div_pow2 by lia.
  apply Z.div_mul. lia.
Qed.

Lemma signedLength_spec (f : nat) :
  forall v, - 2 ^ (8 * Z.of_nat f + 7) <= v < 2 ^ (8 * Z.of_nat f + 7) ->
  let n := Z.of_nat (signedLength f v) in
  1 <= n <= Z.of_nat f + 1
  /\ - 2 ^ (8 * n - 1) <= v < 2 ^ (8 * n - 1)
  /\ (2 <= n -> ~ (- 2 ^ (8 * n - 9) <= v < 2 ^ (8 * n - 9))).
Proof.
  induction f as [|f IH]; intros v Hv; cbn zeta.
  - cbn [signedLength]. change (2 ^ (8 * Z.of_nat 0 + 7)) with 128 in Hv.
    change (Z.of_nat 1) with 1. change (2 ^ (8 * 1 - 1)) with 128. lia.
  - cbn [signedLength].
    destruct ((128 <=? v) || (v <? -128)) eqn:Hc.
    + rewrite Z.shiftr_div_pow2 by lia. change (2 ^ 8) with 256.
      pose proof (Z.div_mod v 256 ltac:(lia)) as Hdm.
      pose proof (Z.mod_pos_bound v 256 ltac:(lia)) as Hm.
      set (q := v / 256) in *.
      assert (Hq : - 2 ^ (8 * Z.of_nat f + 7) <= q < 2 ^ (8 * Z.of_nat f + 7)).
      { replace (8 * Z.of_nat (S f) + 7) with (8 + (8 * Z.of_nat f + 7)) in Hv by lia.
        rewrite Z.pow_add_r in Hv by lia. change (2 ^ 8) with 256 in Hv. lia. }
      specialize (IH q Hq). cbn zeta in IH.
      rewrite (Nat2Z.inj_succ (signedLength f q)).
      set (n' := Z.of_nat (signedLength f q)) in *.
      destruct IH as [Hn [Hr Hmin]].
      replace (8 * Z.succ n' - 1) with (8 + (8 * n' - 1)) by lia.
      replace (8 * Z.succ n' - 9) with (8 * n' - 1) by lia.
      rewrite Z.pow_add_r by lia. change (2 ^ 8) with 256.
      assert (HA : 0 < 2 ^ (8 * n' - 1)) by (apply Z.pow_pos_nonneg; lia).
      split; [lia|]. split; [lia|]. intros _ Hin.
      destruct (Z.eq_dec n' 1) as [E1|E1].
      * rewrite E1 in Hin. change (2 ^ (8 * 1 - 1)) with 128 in Hin.
        apply orb_true_iff in Hc. destruct Hc as [Hc|Hc];
          [apply Z.leb_le in Hc|apply Z.ltb_lt in Hc]; lia.
      * apply Hmin; [lia|].
        assert (HB : 0 < 2 ^ (8 * n' - 9)) by (apply Z.pow_pos_nonneg; lia).
        replace (8 * n' - 1) with (8 + (8 * n' - 9)) in Hin by lia.
        rewrite Z.pow_add_r in Hin by lia. change (2 ^ 8) with 256 in Hin. lia.
    + apply orb_false_iff in Hc. destruct Hc as [Hc1 Hc2].
      apply Z.leb_gt in Hc1. apply Z.ltb_ge in Hc2.
      change (Z.of_nat 1) with 1. change (2 ^ (8 * 1 - 1)) with 128. lia.
Qed.

Lemma land_128 (x : Z) :
  0 <= x < 256 -> Z.land x 128 = if x <? 128 then 0 else 128.
Proof.
  intros Hx. destruct (Z.ltb_spec x 128) as [H|H].
  - apply (land_pow2_small (k := 7)); lia.
  - replace x with (Z.lor (1 * 2 ^ 7) (x - 128))
      by (rewrite lor_low by lia; lia).
    rewrite Z.land_lor_distr_l.
    assert (E : Z.land (x - 128) 128 = 0)
      by (apply (land_pow2_small (k := 7)); lia).
    rewrite E. reflexivity.
Qed.

Lemma checkASN1Integer_signedBytes (n : nat) (v : Z) :
  (1 <= n)%nat ->
  - 2 ^ (8 * Z.of_nat n - 1) <= v < 2 ^ (8 * Z.of_nat n - 1) ->
  (2 <= Z.of_nat n ->
   ~ (- 2 ^ (8 * Z.of_nat n - 9) <= v < 2 ^ (8 * Z.of_nat n - 9))) ->
  checkASN1Integer (signedBytes n v) = true.
Proof.
  intros Hn Hr Hmin.
  destruct n as [|[|m]]; [lia|reflexivity|].
  cbn [signedBytes checkASN1Integer].
  rewrite !byte_val_of_Z, !land_255, !Z.mod_mod by lia.
  rewrite !Z.shiftr_div_pow2, !pow256 by lia.
  assert (HP : 0 < 256 ^ Z.of_nat m) by (apply Z.pow_pos_nonneg; lia).
  rewrite (Nat2Z.inj_succ m), Z.pow_succ_r by lia.
  rewrite (Z.mul_comm 256), <- Z.div_div by lia.
  set (P := 256 ^ Z.of_nat m) in *.
  pose proof (Z.div_mod v P ltac:(lia)) as Hdm.
  pose proof (Z.mod_pos_bound v P ltac:(lia)) as Hm.
  set (w := v / P) in *.
  assert (Hw : - 2 ^ 15 <= w < 2 ^ 15).
  { replace (8 * Z.of_nat (S (S m)) - 1) with (15 + Z.of_nat m * 8) in Hr by lia.
    rewrite Z.pow_add_r, pow256 in Hr by lia. fold P in Hr. nia. }
  assert (Hw' : ~ (-128 <= w < 128)).
  { intros Hin. apply Hmin; [lia|].
    replace (8 * Z.of_nat (S (S m)) - 9) with (7 + Z.of_nat m * 8) by lia.
    rewrite Z.pow_add_r, pow256 by lia. fold P. change (2 ^ 7) with 128. nia. }
  pose proof (Z.div_mod w 256 ltac:(lia)) as Hdw.
  pose proof (Z.mod_pos_bound w 256 ltac:(lia)) as Hmw.
  pose proof (Z.mod_pos_bound (w / 256) 256 ltac:(lia)) as Hmq.
  pose proof (Z.div_mod (w / 256) 256 ltac:(lia)) as Hdq.
  rewrite land_128 by lia.
  destruct (Z.eqb_spec ((w / 256) mod 256) 0) as [E0|E0];
  destruct (Z.eqb_spec ((w / 256) mod 256) 255) as [E1|E1];
  destruct (Z.ltb_spec (w mod 256) 128) as [E2|E2];
  cbn; try reflexivity; exfalso; lia.
Qed.

Lemma readASN1Int64_AddASN1Int64 (v : Z) (rest : bytes) :
  - 2 ^ 63 <= v < 2 ^ 63 ->
  readASN1Int64 (AddASN1Int64 v ++ rest) = Some (v, rest).
Proof.
  intros Hv.
  assert (Hv' : - 2 ^ (8 * Z.of_nat 8 + 7) <= v < 2 ^ (8 * Z.of_nat 8 + 7))
    by (change (2 ^ (8 * Z.of_nat 8 + 7)) with (2 ^ 71); lia).
  destruct (signedLength_spec 8 Hv') as [Hn [Hr Hmin]].
  cbn zeta in *.
  assert (Hn8 : (signedLength 8 v <= 8)%nat).
  { destruct (Nat.le_gt_cases (signedLength 8 v) 8) as [|Hgt]; [assumption|exfalso].
    assert (E9 : Z.of_nat (signedLength 8 v) = 9) by lia.
    rewrite E9 in Hmin. apply Hmin; [lia|].
    change (2 ^ (8 * 9 - 9)) with (2 ^ 63). lia. }
  unfold readASN1Int64, AddASN1Int64.
  rewrite ReadASN1_AddASN1.
  - rewrite checkASN1Integer_signedBytes by (assumption || lia).
    rewrite asn1Signed_signedBytes by (assumption || lia). reflexivity.
  - unfold INTEGER. lia.
  - discriminate.
  - unfold AddASN1, lengthOctets. rewrite len_signedBytes.
    replace (Z.of_nat (signedLength 8 v) <? 128) with true
      by (symmetry; apply Z.ltb_lt; lia).
    rewrite len_cons, len_app, len_cons, len_nil, len_signedBytes. lia.
Qed.

Lemma ReadASN1_AddASN1_all (tag : Z) (body : bytes) :
  0 <= tag < 256 -> Z.land tag 31 <> 31 ->
  len (AddASN1 tag body) < 2 ^ 32 ->
  ReadASN1 (AddASN1 tag body) tag = Some (body, []).
Proof.
  intros. rewrite <- (app_nil_r (AddASN1 tag body)).
  apply ReadASN1_AddASN1; assumption.
Qed.

Lemma oid_Equal_eq (a b : ObjectIdentifier) : oid_Equal a b = true -> a = b.
Proof.
  revert b. induction a as [|x a IH]; intros [|y b] H; cbn in H;
    try discriminate; [reflexivity|].
  apply andb_true_iff in H. destruct H as [Hxy H].
  apply Z.eqb_eq in Hxy. subst. f_equal. apply IH. exact H.
Qed.

Lemma knownKeytype_cases (oid : ObjectIdentifier) :
  knownKeytype oid = true ->
  oid = OIDLoadableKey \/ oid = OIDImportbleKey
  \/ oid = OIDSealedKey \/ oid = OIDOldLoadableKey.
Proof.
  unfold knownKeytype. intros H.
  repeat (apply orb_true_iff in H; destruct H as [H|H]);
    apply oid_Equal_eq in H; auto.
Qed.

Lemma ReadASN1ObjectIdentifier_known (oid : ObjectIdentifier) (rest : bytes) :
  knownKeytype oid = true ->
  ReadASN1ObjectIdentifier (AddASN1ObjectIdentifier oid ++ rest)
  = Some (oid, rest).
Proof.
  intros H. unfold ReadASN1ObjectIdentifier, AddASN1ObjectIdentifier.
  destruct (knownKeytype_cases _ H) as [E|[E|[E|E]]]; subst oid;
    (rewrite ReadASN1_AddASN1;
     [reflexivity|unfold OBJECT_IDENTIFIER; lia|discriminate|reflexivity]).
Qed.

Lemma ctx_values : ctx 0 = 160 /\ ctx 1 = 161 /\ ctx 2 = 162 /\ ctx 3 = 163.
Proof. repeat split. Qed.

Lemma parseTPMPolicy_absent (s : bytes) :
  PeekASN1Tag s (ctx 1) = false -> parseTPMPolicy s = Ok ([], s).
Proof.
  intros H. unfold parseTPMPolicy.
  rewrite ReadOptionalASN1_absent by exact H. reflexivity.
Qed.

Lemma parseTPMAuthPolicy_absent (s : bytes) :
  PeekASN1Tag s (ctx 3) = false -> parseTPMAuthPolicy s = Ok ([], s).
Proof.
  intros H. unfold parseTPMAuthPolicy.
  rewrite ReadOptionalASN1_absent by exact H. reflexivity.
Qed.

Lemma Empty_AddASN1 (tag : Z) (body rest : bytes) :
  Empty (AddASN1 tag body ++ rest) = false.
Proof.
  unfold Empty. apply Z.eqb_neq. rewrite len_app.
  pose proof (len_AddASN1_ge tag body). pose proof (len_nonneg body).
  pose proof (len_nonneg rest). lia.
Qed.

(** Of the policies on the wire the first is read back as written, and
    only the first. *)
Lemma parseTPMPolicy_first
      (p : TPMPolicy) (ps : list TPMPolicy) (rest : bytes) :
  - 2 ^ 63 <= commandCode p < 2 ^ 63 ->
  len (marshalPolicies (ctx 1) (p :: ps)) < 2 ^ 32 ->
  parseTPMPolicy (marshalPolicies (ctx 1) (p :: ps) ++ rest) = Ok ([p], rest).
Proof.
  intros Hcc Hlen. destruct p as [cc cp]. cbn [commandCode] in Hcc.
  unfold marshalPolicies in *. cbn [flat_map] in *.
  remember (flat_map marshalPolicy ps) as more eqn:Emore.
  unfold marshalPolicy in *.
  cbn [commandCode commandPolicy] in *.
  unfold AddASN1OctetString in *.
  set (e0 := AddASN1 (ctx 0) (AddASN1Int64 cc)) in *.
  set (e1 := AddASN1 (ctx 1) (AddASN1 OCTET_STRING cp)) in *.
  pose proof (len_AddASN1_ge (ctx 1)
                (AddASN1 SEQUENCE (AddASN1 SEQUENCE (e0 ++ e1) ++ more))) as G1.
  pose proof (len_AddASN1_ge SEQUENCE
                (AddASN1 SEQUENCE (e0 ++ e1) ++ more)) as G2.
  rewrite len_app in G2.
  pose proof (len_AddASN1_ge SEQUENCE (e0 ++ e1)) as G3.
  rewrite len_app in G3.
  pose proof (len_AddASN1_ge (ctx 1) (AddASN1 OCTET_STRING cp)) as G4.
  pose proof (len_AddASN1_ge OCTET_STRING cp) as G5.
  fold e1 in G4.
  pose proof (len_nonneg e0). pose proof (len_nonneg cp).
  pose proof (len_nonneg more).
  unfold parseTPMPolicy.
  rewrite ReadOptionalASN1_present by asn1_side.
  cbn [negb].
  rewrite ReadASN1_AddASN1_all by asn1_side.
  rewrite Empty_AddASN1. cbn [negb].
  rewrite ReadASN1_AddASN1 by asn1_side.
  unfold e0 at 1.
  rewrite ReadASN1_AddASN1.
  2:{ cbv; intuition discriminate. }
  2:{ discriminate. }
  2:{ fold e0. lia. }
  unfold ReadASN1Integer.
  rewrite <- (app_nil_r (AddASN1Int64 cc)).
  rewrite readASN1Int64_AddASN1Int64 by assumption.
  unfold e1.
  rewrite ReadASN1_AddASN1_all by (fold e1; asn1_side).
  unfold ReadASN1Bytes.
  rewrite ReadASN1_AddASN1_all by asn1_side.
  reflexivity.
Qed.

Lemma int64_range_spec (z : Z) :
  int64_range z = true -> - 2 ^ 63 <= z < 2 ^ 63.
Proof.
  unfold int64_range. intros H. apply andb_true_iff in H.
  destruct H as [H1 H2]. apply Z.leb_le in H1. apply Z.ltb_lt in H2. lia.
Qed.

Lemma len_zero_nil (A : Type) (l : list A) : len l = 0 -> l = [].
Proof. destruct l; [reflexivity|]. rewrite len_cons. pose proof (len_nonneg l). lia. Qed.

Lemma Empty_true (s : bytes) : Empty s = true -> s = [].
Proof. unfold Empty. intros H. apply Z.eqb_eq in H. apply len_zero_nil. exact H. Qed.

Lemma ReadASN1Boolean_true :
  ReadASN1Boolean (AddASN1Boolean true) = Some (true, []).
Proof. reflexivity. Qed.

Lemma ParseDER_Marshal (k : TPMKey) :
  parseable k = true -> ParseDER (Marshal k) = Ok k.
Proof.
  unfold parseable. intros H.
  repeat (apply andb_true_iff in H; let H' := fresh "H" in destruct H as [H H']).
  rename H into Hoid, H4 into Hpol, H3 into Hap, H2 into Hcc, H1 into Hpar, H0 into Hlen.
  apply Z.leb_le in Hpol. apply Z.eqb_eq in Hap. apply len_zero_nil in Hap.
  apply int64_range_spec in Hpar. apply Z.ltb_lt in Hlen.
  destruct k as [oid ea pol sec ap par pub priv].
  cbn [keytype emptyAuth policy secret authPolicy Parent Pubkey Privkey] in *.
  subst ap.
  unfold Marshal, marshalOptional in *.
  cbn [keytype emptyAuth policy secret authPolicy Parent Pubkey Privkey] in *.
  change (len (@nil TPMAuthPolicy) =? 0) with true in *. cbv iota in *.
  rewrite app_nil_r in *.
  remember (AddASN1Int64 par ++ AddASN1OctetString pub
            ++ AddASN1OctetString priv) as tail eqn:Etail.
  assert (Htail : forall t, PeekASN1Tag tail t = (INTEGER =? t)).
  { intros t. rewrite Etail. unfold AddASN1Int64.
    apply PeekASN1Tag_AddASN1. unfold INTEGER. lia. }
  remember (if Empty sec then [] else AddASN1 (ctx 2) (AddASN1OctetString sec)) as esec eqn:Eesec.
  remember (if len pol =? 0 then [] else marshalPolicies (ctx 1) pol) as epol eqn:Eepol.
  remember (if ea then AddASN1 (ctx 0) (AddASN1Boolean true) else []) as eea eqn:Eeea.
  remember (AddASN1ObjectIdentifier oid) as eoid eqn:Eeoid.
  (* sizes *)
  pose proof (len_AddASN1_ge SEQUENCE (eoid ++ (eea ++ epol ++ esec) ++ tail)) as G0.
  rewrite !len_app in G0.
  pose proof (len_nonneg eoid). pose proof (len_nonneg eea).
  pose proof (len_nonneg epol). pose proof (len_nonneg esec).
  assert (Gt : len tail = len (AddASN1Int64 par) + len (AddASN1OctetString pub)
                          + len (AddASN1OctetString priv))
    by (rewrite Etail, !len_app; lia).
  pose proof (len_nonneg (AddASN1Int64 par)).
  pose proof (len_nonneg (AddASN1OctetString pub)).
  pose proof (len_nonneg (AddASN1OctetString priv)).
  (* the peeks past absent fields *)
  assert (Psec : forall t, t <> ctx 2 -> t <> INTEGER ->
                           PeekASN1Tag (esec ++ tail) t = false).
  { intros t T2 TI. rewrite Eesec. destruct (Empty sec).
    - cbn [app]. rewrite Htail. apply Z.eqb_neq. congruence.
    - rewrite PeekASN1Tag_AddASN1 by (cbv; intuition discriminate).
      apply Z.eqb_neq. congruence. }
  assert (Ppol : forall t, t <> ctx 1 -> t <> ctx 2 -> t <> INTEGER ->
                           PeekASN1Tag (epol ++ esec ++ tail) t = false).
  { intros t T1 T2 TI. rewrite Eepol. destruct (len pol =? 0).
    - cbn [app]. apply Psec; assumption.
    - unfold marshalPolicies.
      rewrite PeekASN1Tag_AddASN1 by (cbv; intuition discriminate).
      apply Z.eqb_neq. congruence. }
  unfold ParseDER.
  rewrite ReadASN1_AddASN1_all by asn1_side.
  rewrite Eeoid at 1. rewrite ReadASN1ObjectIdentifier_known by assumption.
  rewrite Hoid. cbn [negb].
  rewrite <- !app_assoc.
  (* emptyAuth *)
  assert (Hea : ReadOptionalASN1 (eea ++ epol ++ esec ++ tail) (ctx 0)
                = Some (if ea then AddASN1Boolean true else [], ea,
                        epol ++ esec ++ tail)).
  { rewrite Eeea. destruct ea.
    - apply ReadOptionalASN1_present; [cbv; intuition discriminate|discriminate|reflexivity].
    - cbn [app]. apply ReadOptionalASN1_absent. apply Ppol; discriminate. }
  rewrite Hea. clear Hea.
  assert (Hb : (if ea then
                  match ReadASN1Boolean (if ea then AddASN1Boolean true else []) with
                  | Some (auth, _) => Ok auth
                  | None => Err "no emptyAuth bool"
                  end
                else Ok false) = Ok ea).
  { destruct ea; reflexivity. }
  rewrite Hb. clear Hb.
  (* policy *)
  assert (Hp : parseTPMPolicy (epol ++ esec ++ tail) = Ok (pol, esec ++ tail)).
  { rewrite Eepol in *. destruct pol as [|p [|p' pol']].
    - cbn [app]. change (len (@nil TPMPolicy) =? 0) with true. cbv iota. cbn [app].
      apply parseTPMPolicy_absent. apply Psec; discriminate.
    - change (len [p] =? 0) with false in *. cbv iota in *.
      apply parseTPMPolicy_first.
      + apply int64_range_spec. cbn [forallb] in Hcc.
        apply andb_true_iff in Hcc. apply Hcc.
      + lia.
    - exfalso. rewrite !len_cons in Hpol. pose proof (len_nonneg pol'). lia. }
  rewrite Hp. clear Hp.
  (* secret *)
  assert (Hs : ReadOptionalASN1 (esec ++ tail) (ctx 2)
               = Some (if Empty sec then [] else AddASN1OctetString sec,
                       negb (Empty sec), tail)).
  { rewrite Eesec in *. destruct (Empty sec) eqn:Es.
    - cbn [app negb]. apply ReadOptionalASN1_absent. rewrite Htail. reflexivity.
    - cbn [negb]. apply ReadOptionalASN1_present;
        [cbv; intuition discriminate|discriminate|].
      lia. }
  rewrite Hs. clear Hs.
  assert (Hs2 : (if negb (Empty sec) then
                   match ReadASN1 (if Empty sec then [] else AddASN1OctetString sec)
                                  OCTET_STRING with
                   | Some (secret, _) => Ok secret
                   | None => Err "could not parse secret"
                   end
                 else Ok []) = Ok sec).
  { destruct (Empty sec) eqn:Es; cbn [negb].
    - apply Empty_true in Es. subst. reflexivity.
    - unfold AddASN1OctetString.
      rewrite ReadASN1_AddASN1_all; [reflexivity|cbv; intuition discriminate|discriminate|].
      pose proof (len_AddASN1_ge (ctx 2) (AddASN1OctetString sec)) as G2.
      rewrite <- Eesec in G2.
      unfold AddASN1OctetString in *. lia. }
  rewrite Hs2. clear Hs2.
  (* authPolicy, parent, pubkey, privkey *)
  rewrite parseTPMAuthPolicy_absent by (rewrite Htail; reflexivity).
  rewrite Etail in *. unfold ReadASN1Integer.
  rewrite readASN1Int64_AddASN1Int64 by assumption.
  unfold AddASN1OctetString in *.
  rewrite ReadASN1_AddASN1 by asn1_side.
  rewrite ReadASN1_AddASN1_all by asn1_side.
  reflexivity.
Qed.

(** ** The policy decoders *)

Lemma parseTPMAuthPolicy_nil
      (der : bytes) (v : list TPMAuthPolicy) (rest : bytes) :
  parseTPMAuthPolicy der = Ok (v, rest) -> v = [].
Proof.
  unfold parseTPMAuthPolicy. intros H.
  parse_cases H; inversion H; reflexivity.
Qed.

Lemma parseTPMPolicy_length
      (der : bytes) (v : list TPMPolicy) (rest : bytes) :
  parseTPMPolicy der = Ok (v, rest) -> (List.length v <= 1)%nat.
Proof.
  unfold parseTPMPolicy. intros H.
  parse_cases H; inversion H; cbn; lia.
Qed.

Lemma ParseDER_authPolicy (b : bytes) (k : TPMKey) :
  ParseDER b = Ok k -> authPolicy k = [].
Proof.
  unfold ParseDER. intros H.
  repeat match type of H with
         | context [match parseTPMAuthPolicy ?s with _ => _ end] =>
             destruct (parseTPMAuthPolicy s) as [[ap s']|] eqn:Hap;
             [apply parseTPMAuthPolicy_nil in Hap; subst ap|discriminate H]
         | context [match ?x with _ => _ end] =>
             destruct x eqn:?; try discriminate H
         | context [if ?x then _ else _] =>
             destruct x eqn:?; try discriminate H
         end.
  all: inversion H; reflexivity.
Qed.

(** ** What the decoder returns *)

(** C2.  The specification has the auth-policy decoder return the
    auth-policies parsed from a present, well-formed wrapper.  The code
    never returns what it parsed: on every successful path its result is the
    empty list, so the decoded Key's auth-policy list is empty whatever the
    wire carries. *)
Theorem C2_authPolicy_discarded :
  (forall (der : bytes) (v : list TPMAuthPolicy) (rest : bytes),
      parseTPMAuthPolicy der = Ok (v, rest) -> v = [])
  /\ (forall (pem_Decode : bytes -> option Block) (b : bytes) (k : TPMKey),
         Parse pem_Decode b = Ok k -> authPolicy k = []).
Proof.
  split.
  - exact parseTPMAuthPolicy_nil.
  - intros pem b k H. unfold Parse in H.
    destruct (unwrapPEM pem b); [|discriminate].
    eapply ParseDER_authPolicy; eassumption.
Qed.

(** [derAuthPolicy] carries one well-formed auth-policy and decodes to the
    key of [derPlain], which carries none. *)
Lemma C2_authPolicy_discarded_witness :
  parseTPMAuthPolicy wireAuthPolicy = Ok ([], [])
  /\ Parse bareBlock derAuthPolicy = Ok keyPlain
  /\ authPolicy keyPlain = [].
Proof.
  split; [reflexivity|]. split; [reflexivity|].
  apply (proj2 C2_authPolicy_discarded bareBlock derAuthPolicy keyPlain).
  reflexivity.
Defined.

(** C3.  The specification has the policy decoder return one Policy per
    inner element, in wire order.  The code reads the first element of the
    inner sequence and stops: its result never has more than one policy. *)
Theorem C3_policy_at_most_one
        (der : bytes) (v : list TPMPolicy) (rest : bytes) :
  parseTPMPolicy der = Ok (v, rest) -> (List.length v <= 1)%nat.
Proof. apply parseTPMPolicy_length. Qed.

(** Two well-formed elements on the wire, one policy returned. *)
Lemma C3_policy_at_most_one_witness :
  parseTPMPolicy wireTwoPolicies = Ok ([policy1], [])
  /\ (List.length [policy1] <= 1)%nat.
Proof.
  split; [reflexivity|].
  apply (@C3_policy_at_most_one wireTwoPolicies [policy1] []).
  reflexivity.
Defined.

Lemma oid_Equal_refl (a : ObjectIdentifier) : oid_Equal a a = true.
Proof.
  induction a as [|x a IH]; [reflexivity|].
  cbn. rewrite Z.eqb_refl. exact IH.
Qed.

Lemma knownKeytype_In (oid : ObjectIdentifier) :
  knownKeytype oid = true <-> In oid recognized.
Proof.
  split.
  - intros H. apply knownKeytype_cases in H. unfold recognized. cbn.
    intuition auto.
  - unfold recognized. cbn. intros [H|[H|[H|[H|[]]]]]; subst oid; reflexivity.
Qed.



(** C7.  The decoded Key's empty-auth flag is false when the [0] wrapper is
    absent, and is the wrapped boolean, TRUE or FALSE, when it is present. *)
Theorem C7_emptyAuth_flag
        (pem_Decode : bytes -> option Block) (b der s rest s1 : bytes)
        (oid : ObjectIdentifier) (k : TPMKey) :
  unwrapPEM pem_Decode b = Ok der ->
  ReadASN1 der SEQUENCE = Some (s, rest) ->
  ReadASN1ObjectIdentifier s = Some (oid, s1) ->
  Parse pem_Decode b = Ok k ->
  (PeekASN1Tag s1 (ctx 0) = false -> emptyAuth k = false)
  /\ (forall (wrapped s2 r : bytes) (v : bool),
         ReadOptionalASN1 s1 (ctx 0) = Some (wrapped, true, s2) ->
         ReadASN1Boolean wrapped = Some (v, r) ->
         emptyAuth k = v).
Proof.
  intros Hpem Hseq Hoid H. unfold Parse in H. rewrite Hpem in H.
  unfold ParseDER in H. rewrite Hseq, Hoid in H.
  destruct (negb (knownKeytype oid)); [discriminate|]. split.
  - intros Hpeek. rewrite (ReadOptionalASN1_absent _ _ Hpeek) in H.
    parse_cases H; inversion H; reflexivity.
  - intros wrapped s2 r v Hopt Hbool. rewrite Hopt, Hbool in H.
    parse_cases H; inversion H; reflexivity.
Qed.

Lemma C7_emptyAuth_flag_witness :
  emptyAuth keyPlain = false /\ emptyAuth keySealed = true.
Proof.
  split.
  - refine (proj2 (@C7_emptyAuth_flag bareBlock derExplicitFalse
                     derExplicitFalse (skipn 2 derExplicitFalse) []
                     (skipn 10 derExplicitFalse) OIDLoadableKey keyPlain
                     _ _ _ _)
                  [x01; x01; x00] (skipn 15 derExplicitFalse) [] false _ _);
      reflexivity.
  - refine (proj2 (@C7_emptyAuth_flag bareBlock derSealedKey
                     derSealedKey (skipn 2 derSealedKey) []
                     (skipn 10 derSealedKey) OIDSealedKey keySealed
                     _ _ _ _)
                  [x01; x01; xff] (skipn 15 derSealedKey) [] true _ _);
      reflexivity.
Defined.




(** ** Round trip *)




(** No encoder at all inverts the parser: it is not injective on the inputs
    it accepts. *)
Lemma ParseDER_not_injective :
  ~ exists enc : TPMKey -> bytes,
      forall b k, ParseDER b = Ok k -> enc k = b.
Proof.
  intros [enc H].
  pose proof (H derExplicitFalse keyPlain eq_refl) as H1.
  pose proof (H derPlain keyPlain eq_refl) as H2.
  rewrite H1 in H2. discriminate H2.
Qed.

(** ** The public area of a decoded key *)







(** ** The key entity *)

Section EntityProperties.
Import tpm2 keyfile.

Variable Unmarshal : bytes -> result TPMTPublic.

(** C4.  The specification wants an error for an unsupported curve.  For a
    Key whose public area is an elliptic-curve key,
    [ecdsaPubKey] maps P-256, P-384 and P-521 to the named curve with the
    big-endian coordinates; for every other curve identifier it returns a
    nil key and a nil error. *)
Theorem C4_ecdsaPubKey_curves
        (t : TPMKey) (pub : TPMTPublic) (ecc : TPMSECCPoint)
        (eccdeets : TPMSECCParms) :
  Contents Unmarshal (Pubkey t) = Ok pub ->
  ECC (Unique pub) = Ok ecc ->
  ECCDetail (Parameters pub) = Ok eccdeets ->
  let point c := mk_ecdsa_PublicKey c (SetBytes (X ecc)) (SetBytes (Y ecc)) in
  (CurveID eccdeets = TPMECCNistP256 ->
   ecdsaPubKey Unmarshal t = (Some (point P256), None))
  /\ (CurveID eccdeets = TPMECCNistP384 ->
      ecdsaPubKey Unmarshal t = (Some (point P384), None))
  /\ (CurveID eccdeets = TPMECCNistP521 ->
      ecdsaPubKey Unmarshal t = (Some (point P521), None))
  /\ (CurveID eccdeets <> TPMECCNistP256 ->
      CurveID eccdeets <> TPMECCNistP384 ->
      CurveID eccdeets <> TPMECCNistP521 ->
      ecdsaPubKey Unmarshal t = (None, None)).
Proof.
  intros Hc He Hd point. unfold ecdsaPubKey. rewrite Hc, He, Hd.
  repeat split.
  - intros ->. reflexivity.
  - intros ->. reflexivity.
  - intros ->. reflexivity.
  - intros N1 N2 N3.
    apply Z.eqb_neq in N1, N2, N3. rewrite N1, N2, N3. reflexivity.
Qed.

(** C9.  When [HasSinger] is false [Signer] returns the "does not have
    sign/encrypt attribute set" error and no handle; when it is true it
    returns a handle on the key and no error. *)
Theorem C9_Signer_needs_sign_attribute
        (TPMCloser : Type) (t : TPMKey) (tpm : TPMCloser)
        (ownerAuth auth : bytes) :
  (HasSinger Unmarshal t = Returns false ->
   Signer Unmarshal t tpm ownerAuth auth
   = Returns (None, Some "does not have sign/encrypt attribute set"%string))
  /\ (HasSinger Unmarshal t = Returns true ->
      exists h : TPMKeySigner TPMCloser,
        Signer Unmarshal t tpm ownerAuth auth = Returns (Some h, None)
        /\ signer_key h = t
        /\ signer_tpm h tt = tpm
        /\ signer_ownerAuth h tt = Ok ownerAuth
        /\ signer_auth h t = Ok auth).
Proof.
  unfold Signer. split; intros H; rewrite H; cbn [negb].
  - reflexivity.
  - eexists. split; [reflexivity|]. cbn. repeat split.
Qed.

Variable ecdsa_VerifyASN1 : ecdsa_PublicKey -> bytes -> bytes -> bool.
Variable Hash : Type.
Variable rsa_VerifyPKCS1v15 :
  rsa_PublicKey -> Hash -> bytes -> bytes -> option string.


End EntityProperties.

(** A P-224 key: the public area parses, the curve is not one of the three,
    and the result is a nil key with a nil error; [Verify] then hands the
    nil key to the primitive. *)
Lemma C4_ecdsaPubKey_curves_witness :
  keyfile.ecdsaPubKey noUnmarshal
    (entityKey (tpm2.New2B (eccPublic tpm2.TPMECCNistP224 true)))
  = (None, None).
Proof.
  refine (proj2 (proj2 (proj2
           (@C4_ecdsaPubKey_curves noUnmarshal
              (entityKey (tpm2.New2B (eccPublic tpm2.TPMECCNistP224 true)))
              (eccPublic tpm2.TPMECCNistP224 true)
              (tpm2.mkTPMSECCPoint [x01; x00] [x02])
              (tpm2.mkTPMSECCParms tpm2.TPMECCNistP224)
              eq_refl eq_refl eq_refl))) _ _ _); discriminate.
Defined.

Lemma Verify_unsupported_curve_panics
      (V : keyfile.ecdsa_PublicKey -> bytes -> bytes -> bool)
      (R : keyfile.rsa_PublicKey -> unit -> bytes -> bytes -> option string)
      (hashed sig : bytes) :
  keyfile.Verify noUnmarshal V R
    (entityKey (tpm2.New2B (eccPublic tpm2.TPMECCNistP224 true)))
    tt hashed sig
  = Panics "invalid memory address or nil pointer dereference".
Proof. reflexivity. Qed.

Lemma C9_Signer_needs_sign_attribute_witness :
  keyfile.Signer noUnmarshal
    (entityKey (tpm2.New2B (eccPublic tpm2.TPMECCNistP256 false)))
    tt [x0a] [x0b]
  = Returns (None, Some "does not have sign/encrypt attribute set"%string)
  /\ exists h : keyfile.TPMKeySigner unit,
      keyfile.Signer noUnmarshal
        (entityKey (tpm2.New2B (eccPublic tpm2.TPMECCNistP256 true)))
        tt [x0a] [x0b]
      = Returns (Some h, None).
Proof.
  split.
  - apply (proj1 (@C9_Signer_needs_sign_attribute noUnmarshal unit
                    (entityKey (tpm2.New2B (eccPublic tpm2.TPMECCNistP256 false)))
                    tt [x0a] [x0b])).
    reflexivity.
  - destruct (proj2 (@C9_Signer_needs_sign_attribute noUnmarshal unit
                       (entityKey (tpm2.New2B (eccPublic tpm2.TPMECCNistP256 true)))
                       tt [x0a] [x0b]) eq_refl) as [h [Hh _]].
    exists h. exact Hh.
Defined.



(** * Further properties of the parser *)

(** * Further properties of the parser *)

(** ** What follows an element *)

Lemma read_more (b e r junk : bytes) (n : Z) :
  read b n = Some (e, r) -> read (b ++ junk) n = Some (e, r ++ junk).
Proof.
  unfold read. intros H.
  destruct ((len b <? n) || (n <? 0)) eqn:Hc; [discriminate|].
  apply orb_false_iff in Hc. destruct Hc as [H1 H2].
  apply Z.ltb_ge in H1, H2. inversion H; subst e r; clear H.
  pose proof (len_nonneg junk).
  rewrite len_app.
  replace (len b + len junk <? n) with false by (symmetry; apply Z.ltb_ge; lia).
  replace (n <? 0) with false by (symmetry; apply Z.ltb_ge; lia).
  cbn [orb].
  assert (Hn : (Z.to_nat n <= List.length b)%nat) by (unfold len in H1; lia).
  rewrite firstn_app, skipn_app.
  replace (Z.to_nat n - List.length b)%nat with O by lia.
  cbn [firstn skipn]. rewrite app_nil_r. reflexivity.
Qed.

(** An element is read the same whatever follows it in the input. *)
Lemma ReadAnyASN1_more (b out r junk : bytes) (t : Z) :
  ReadAnyASN1 b = Some (t, out, r) ->
  ReadAnyASN1 (b ++ junk) = Some (t, out, r ++ junk).
Proof.
  destruct b as [|tagb [|lenb b']]; try discriminate.
  unfold ReadAnyASN1. cbn [app].
  destruct (Z.land (byte_val tagb) 31 =? 31); [discriminate|].
  destruct (Z.land (byte_val lenb) 128 =? 0).
  - destruct (read (tagb :: lenb :: b') (byte_val lenb + 2))
      as [[e r']|] eqn:Hr; [|discriminate].
    intros H. inversion H; subst.
    change (tagb :: lenb :: b' ++ junk) with ((tagb :: lenb :: b') ++ junk).
    rewrite (@read_more _ _ _ junk _ Hr). reflexivity.
  - set (lenLen := Z.land (byte_val lenb) 127).
    destruct ((lenLen =? 0) || (4 <? lenLen)
              || (len (tagb :: lenb :: b') <? 2 + lenLen)) eqn:Hc;
      [discriminate|].
    apply orb_false_iff in Hc. destruct Hc as [Hc Hc3].
    apply orb_false_iff in Hc. destruct Hc as [Hc1 Hc2].
    apply Z.eqb_neq in Hc1. apply Z.ltb_ge in Hc2, Hc3.
    replace (lenLen =? 0) with false by (symmetry; apply Z.eqb_neq; lia).
    replace (4 <? lenLen) with false by (symmetry; apply Z.ltb_ge; lia).
    pose proof (len_nonneg junk) as Hj.
    change (tagb :: lenb :: b' ++ junk) with ((tagb :: lenb :: b') ++ junk).
    rewrite (len_app (tagb :: lenb :: b') junk).
    replace (len (tagb :: lenb :: b') + len junk <? 2 + lenLen) with false
      by (symmetry; apply Z.ltb_ge; lia).
    cbn [orb].
    change (Z.to_nat 2) with 2%nat. cbn [skipn app].
    assert (Hf : firstn (Z.to_nat lenLen) (b' ++ junk)
                 = firstn (Z.to_nat lenLen) b').
    { rewrite firstn_app.
      rewrite !len_cons in Hc3. unfold len in Hc3.
      replace (Z.to_nat lenLen - List.length b')%nat with O by lia.
      cbn [firstn]. apply app_nil_r. }
    rewrite Hf.
    set (len32 := readUnsigned (firstn (Z.to_nat lenLen) b')).
    destruct (len32 <? 128); [discriminate|].
    destruct (Z.shiftr len32 ((lenLen - 1) * 8) =? 0); [discriminate|].
    destruct ((2 + lenLen + len32) mod 2 ^ 32 <? len32); [discriminate|].
    destruct (read (tagb :: lenb :: b') ((2 + lenLen + len32) mod 2 ^ 32))
      as [[e r']|] eqn:Hr; [|discriminate].
    intros HS. inversion HS; subst.
    change (tagb :: lenb :: b' ++ junk) with ((tagb :: lenb :: b') ++ junk).
    rewrite (@read_more _ _ _ junk _ Hr). reflexivity.
Qed.

Lemma ReadASN1_more (b out r junk : bytes) (tag : Z) :
  ReadASN1 b tag = Some (out, r) ->
  ReadASN1 (b ++ junk) tag = Some (out, r ++ junk).
Proof.
  unfold ReadASN1. intros H.
  destruct (ReadAnyASN1 b) as [[[t o] r']|] eqn:E; [|discriminate].
  rewrite (@ReadAnyASN1_more _ _ _ junk _ E).
  destruct (t =? tag); [|discriminate]. inversion H; reflexivity.
Qed.

Lemma ParseDER_outer (b b' s r r' : bytes) :
  ReadASN1 b SEQUENCE = Some (s, r) ->
  ReadASN1 b' SEQUENCE = Some (s, r') ->
  ParseDER b = ParseDER b'.
Proof. intros H H'. unfold ParseDER. rewrite H, H'. reflexivity. Qed.

(** X1.  [Parse] stops at the outer sequence: bytes after it in the input
    change nothing, neither the Key nor the error. *)
Theorem X1_bytes_after_sequence_ignored (b s r junk : bytes) :
  ReadASN1 b SEQUENCE = Some (s, r) ->
  ParseDER (b ++ junk) = ParseDER b.
Proof.
  intros H. symmetry.
  eapply ParseDER_outer; [exact H|]. apply ReadASN1_more. exact H.
Qed.

Lemma X1_bytes_after_sequence_ignored_witness :
  ParseDER (derSealedKey ++ [x0a; xff; x30]) = ParseDER derSealedKey.
Proof.
  apply (@X1_bytes_after_sequence_ignored derSealedKey
           (skipn 2 derSealedKey) [] [x0a; xff; x30]).
  reflexivity.
Defined.

(** ** Inputs that are no sequence *)

Lemma ReadASN1_tag (s out r : bytes) (tag : Z) :
  ReadASN1 s tag = Some (out, r) -> PeekASN1Tag s tag = true.
Proof.
  unfold ReadASN1, ReadAnyASN1, PeekASN1Tag.
  destruct s as [|tagb [|lenb s']]; try discriminate.
  destruct (Z.land (byte_val tagb) 31 =? 31); [discriminate|].
  match goal with
  | |- match match ?h with _ => _ end with _ => _ end = _ -> _ =>
      destruct h as [[length headerLen]|]; [|discriminate]
  end.
  destruct (read (tagb :: lenb :: s') length) as [[e r']|]; [|discriminate].
  destruct (byte_val tagb =? tag); [reflexivity|discriminate].
Qed.

Lemma ReadASN1_wrong_tag (s : bytes) (tag : Z) :
  PeekASN1Tag s tag = false -> ReadASN1 s tag = None.
Proof.
  intros H. destruct (ReadASN1 s tag) as [[out r]|] eqn:E; [|reflexivity].
  apply ReadASN1_tag in E. congruence.
Qed.

(** An element in short form whose length runs past the input. *)
Lemma ReadASN1_truncated (tagb lenb : byte) (body : bytes) (tag : Z) :
  byte_val lenb < 128 -> len body < byte_val lenb ->
  ReadASN1 (tagb :: lenb :: body) tag = None.
Proof.
  intros Hs Ht. unfold ReadASN1, ReadAnyASN1.
  destruct (Z.land (byte_val tagb) 31 =? 31); [reflexivity|].
  pose proof (byte_val_range lenb) as Hr.
  pose proof (@land_128 (byte_val lenb) Hr) as H128.
  replace (byte_val lenb <? 128) with true in H128
    by (symmetry; apply Z.ltb_lt; lia).
  rewrite H128. change (0 =? 0) with true. cbv iota.
  unfold read. rewrite !len_cons.
  replace (1 + (1 + len body) <? byte_val lenb + 2) with true
    by (symmetry; apply Z.ltb_lt; lia).
  reflexivity.
Qed.

(** X2.  An input that does not start with a whole SEQUENCE element fails
    with "no sequence": the empty input, a single byte, a first byte other
    than 0x30, and a short-form length that runs past the end of the
    input. *)
Theorem X2_no_sequence (b : bytes) :
  (List.length b < 2)%nat
  \/ PeekASN1Tag b SEQUENCE = false
  \/ (exists (tagb lenb : byte) (body : bytes),
         b = tagb :: lenb :: body
         /\ byte_val lenb < 128 /\ len body < byte_val lenb) ->
  ParseDER b = Err "no sequence".
Proof.
  intros H. unfold ParseDER.
  assert (E : ReadASN1 b SEQUENCE = None).
  { destruct H as [H|[H|[tagb [lenb [body [-> [Hs Ht]]]]]]].
    - destruct b as [|x [|y b']]; try reflexivity. cbn in H. lia.
    - apply ReadASN1_wrong_tag. exact H.
    - apply ReadASN1_truncated; assumption. }
  rewrite E. reflexivity.
Qed.

Lemma X2_no_sequence_witness :
  ParseDER [] = Err "no sequence"
  /\ ParseDER (x31 :: skipn 1 derPlain) = Err "no sequence"
  /\ ParseDER (firstn 20 derPlain) = Err "no sequence".
Proof.
  split; [|split].
  - apply (@X2_no_sequence []). left. cbn. lia.
  - apply (@X2_no_sequence (x31 :: skipn 1 derPlain)). right. left.
    reflexivity.
  - apply (@X2_no_sequence (firstn 20 derPlain)). right. right.
    exists x30, x15, (firstn 18 (skipn 2 derPlain)).
    split; [reflexivity|]. split; [reflexivity|]. reflexivity.
Defined.

(** ** What every decoded Key satisfies *)

Lemma asn1Signed_range (v : bytes) (i : Z) :
  asn1Signed v = Some i -> - 2 ^ 63 <= i < 2 ^ 63.
Proof.
  unfold asn1Signed.
  destruct (Z.ltb_spec 8 (len v)) as [|H8]; [discriminate|].
  intros H.
  assert (inj : forall a c : Z, Some a = Some c -> a = c)
    by (intros a c E; injection E; trivial).
  apply inj in H. subst i. clear inj.
  pose proof (len_nonneg v) as H0.
  remember (64 - len v * 8) as sh eqn:Esh.
  assert (Hsh : 0 <= sh) by lia.
  remember (int64 (Z.shiftl (fold_left signedStep v 0) sh)) as y eqn:Ey.
  assert (Hy : - 2 ^ 63 <= y < 2 ^ 63).
  { rewrite Ey. unfold int64.
    pose proof (Z.mod_pos_bound
                  (Z.shiftl (fold_left signedStep v 0) sh + 2 ^ 63) (2 ^ 64)
                  ltac:(lia)). lia. }
  rewrite Z.shiftr_div_pow2 by exact Hsh.
  assert (Hp : 0 < 2 ^ sh) by (apply Z.pow_pos_nonneg; lia).
  split.
  - apply Z.div_le_lower_bound; [exact Hp|]. nia.
  - apply Z.div_lt_upper_bound; [exact Hp|]. nia.
Qed.

Lemma ReadASN1Integer_range (s r : bytes) (i : Z) :
  ReadASN1Integer s = Some (i, r) -> int64_range i = true.
Proof.
  unfold ReadASN1Integer, readASN1Int64. intros H.
  destruct (ReadASN1 s INTEGER) as [[v rest]|]; [|discriminate].
  destruct (checkASN1Integer v); [|discriminate].
  destruct (asn1Signed v) as [j|] eqn:E; [|discriminate].
  inversion H; subst. apply asn1Signed_range in E.
  unfold int64_range. apply andb_true_iff. split.
  - apply Z.leb_le. lia.
  - apply Z.ltb_lt. lia.
Qed.

Lemma parseTPMPolicy_range (der rest : bytes) (v : list TPMPolicy) :
  parseTPMPolicy der = Ok (v, rest) ->
  forallb (fun p => int64_range (commandCode p)) v = true.
Proof.
  unfold parseTPMPolicy. intros H.
  repeat match type of H with
         | context [match ReadASN1Integer ?s with _ => _ end] =>
             let E := fresh "Ecc" in
             destruct (ReadASN1Integer s) as [[cc r]|] eqn:E;
             [apply ReadASN1Integer_range in E|discriminate H]
         | context [match ?x with _ => _ end] =>
             destruct x eqn:?; try discriminate H
         | context [if ?x then _ else _] =>
             destruct x eqn:?; try discriminate H
         end.
  all: inversion H; subst; cbn [app forallb commandCode];
    try reflexivity.
  rewrite Ecc. reflexivity.
Qed.

(** The reads a successful parse has made. *)
Lemma ParseDER_inv (b : bytes) (k : TPMKey) :
  ParseDER b = Ok k ->
  exists s r s1 ea has s2 s3 sec hasSec s4 s5 s6 s7 s8,
    ReadASN1 b SEQUENCE = Some (s, r)
    /\ ReadASN1ObjectIdentifier s = Some (keytype k, s1)
    /\ knownKeytype (keytype k) = true
    /\ ReadOptionalASN1 s1 (ctx 0) = Some (ea, has, s2)
    /\ parseTPMPolicy s2 = Ok (policy k, s3)
    /\ ReadOptionalASN1 s3 (ctx 2) = Some (sec, hasSec, s4)
    /\ parseTPMAuthPolicy s4 = Ok (authPolicy k, s5)
    /\ ReadASN1Integer s5 = Some (Parent k, s6)
    /\ ReadASN1 s6 OCTET_STRING = Some (Pubkey k, s7)
    /\ ReadASN1 s7 OCTET_STRING = Some (Privkey k, s8).
Proof.
  unfold ParseDER. intros H.
  destruct (ReadASN1 b SEQUENCE) as [[s r]|] eqn:E1; [|discriminate].
  destruct (ReadASN1ObjectIdentifier s) as [[oid s1]|] eqn:E2;
    [|discriminate].
  destruct (knownKeytype oid) eqn:Hk; [|discriminate]. cbn [negb] in H.
  destruct (ReadOptionalASN1 s1 (ctx 0)) as [[[ea has] s2]|] eqn:E3;
    [|discriminate].
  match type of H with
  | match ?a with _ => _ end = _ => destruct a as [auth|]; [|discriminate]
  end.
  destruct (parseTPMPolicy s2) as [[pol s3]|] eqn:E4; [|discriminate].
  destruct (ReadOptionalASN1 s3 (ctx 2)) as [[[sec hasSec] s4]|] eqn:E5;
    [|discriminate].
  match type of H with
  | match ?a with _ => _ end = _ => destruct a as [secret|]; [|discriminate]
  end.
  destruct (parseTPMAuthPolicy s4) as [[ap s5]|] eqn:E6; [|discriminate].
  destruct (ReadASN1Integer s5) as [[parent s6]|] eqn:E7; [|discriminate].
  destruct (ReadASN1 s6 OCTET_STRING) as [[pub s7]|] eqn:E8; [|discriminate].
  destruct (ReadASN1 s7 OCTET_STRING) as [[priv s8]|] eqn:E9; [|discriminate].
  inversion H; subst k; clear H.
  cbn [keytype policy authPolicy Parent Pubkey Privkey].
  exists s, r, s1, ea, has, s2, s3, sec, hasSec, s4, s5, s6, s7, s8.
  repeat split; reflexivity || assumption.
Qed.

Lemma ParseDER_invariants (b : bytes) (k : TPMKey) :
  ParseDER b = Ok k ->
  In (keytype k) recognized
  /\ int64_range (Parent k) = true
  /\ (List.length (policy k) <= 1)%nat
  /\ forallb (fun p => int64_range (commandCode p)) (policy k) = true
  /\ authPolicy k = [].
Proof.
  intros H. destruct (@ParseDER_inv b k H)
    as (s & r & s1 & ea & has & s2 & s3 & sec & hasSec & s4 & s5 & s6 & s7
        & s8 & _ & _ & Hk & _ & Hp & _ & Hap & Hi & _ & _).
  split; [apply knownKeytype_In; exact Hk|].
  split; [eapply ReadASN1Integer_range; exact Hi|].
  split; [eapply parseTPMPolicy_length; exact Hp|].
  split; [eapply parseTPMPolicy_range; exact Hp|].
  eapply parseTPMAuthPolicy_nil; exact Hap.
Qed.

(** X3.  Every Key that [Parse] returns has one of the four key types, a
    parent and command codes that are Go ints, at most one policy and no
    auth-policy. *)
Theorem X3_decoded_key_invariants (b : bytes) (k : TPMKey) :
  ParseDER b = Ok k ->
  In (keytype k) recognized
  /\ int64_range (Parent k) = true
  /\ (List.length (policy k) <= 1)%nat
  /\ forallb (fun p => int64_range (commandCode p)) (policy k) = true
  /\ authPolicy k = [].
Proof. apply ParseDER_invariants. Qed.

Lemma X3_decoded_key_invariants_witness :
  In (keytype keySealed) recognized
  /\ int64_range (Parent keySealed) = true
  /\ (List.length (policy keySealed) <= 1)%nat
  /\ forallb (fun p => int64_range (commandCode p)) (policy keySealed) = true
  /\ authPolicy keySealed = [].
Proof.
  apply (@X3_decoded_key_invariants derSealedKey keySealed). reflexivity.
Defined.

Lemma len_le_1 (A : Type) (l : list A) :
  (List.length l <= 1)%nat -> (len l <=? 1) = true.
Proof. intros H. apply Z.leb_le. unfold len. lia. Qed.

(** Decoding is stable under re-encoding with the encoder modelled above: a
    Key that [Parse] returned encodes to bytes that decode to the same Key. *)
Lemma ParseDER_reencode (b : bytes) (k : TPMKey) :
  ParseDER b = Ok k ->
  len (Marshal k) < 2 ^ 32 ->
  ParseDER (Marshal k) = Ok k.
Proof.
  intros H Hlen.
  destruct (@ParseDER_invariants b k H) as (Hk & Hi & Hl & Hc & Ha).
  apply ParseDER_Marshal. unfold parseable.
  rewrite (proj2 (@knownKeytype_In (keytype k)) Hk), (@len_le_1 _ _ Hl), Ha, Hc, Hi.
  cbn [andb]. apply Z.ltb_lt. exact Hlen.
Qed.

(** ** The mandatory fields *)

Lemma len_be_bytes_mono (f : nat) (n1 n2 : Z) :
  0 <= n1 <= n2 -> n2 < 256 ^ Z.of_nat f ->
  len (be_bytes f n1) <= len (be_bytes f n2).
Proof.
  intros Hn Hf.
  destruct (@be_bytes_spec f n1 ltac:(lia)) as [[_ E1]|[P1 [L1 R1]]];
    [rewrite E1; apply len_nonneg|].
  destruct (@be_bytes_spec f n2 ltac:(lia)) as [[E2 _]|[P2 [L2 R2]]]; [lia|].
  destruct (Z.le_gt_cases (len (be_bytes f n1)) (len (be_bytes f n2)))
    as [|Hgt]; [assumption|exfalso].
  assert (256 ^ len (be_bytes f n2) <= 256 ^ (len (be_bytes f n1) - 1))
    by (apply Z.pow_le_mono_r; lia).
  lia.
Qed.

Lemma len_AddASN1_mono (t1 t2 : Z) (b1 b2 : bytes) :
  len b1 <= len b2 -> len b2 < 2 ^ 32 ->
  len (AddASN1 t1 b1) <= len (AddASN1 t2 b2).
Proof.
  intros H Hb. unfold AddASN1, lengthOctets.
  rewrite !len_cons, !len_app.
  pose proof (len_nonneg b1).
  assert (H64 : len b2 < 256 ^ Z.of_nat 8)
    by (change (256 ^ Z.of_nat 8) with (2 ^ 64); lia).
  pose proof (@len_be_bytes_mono 8 (len b1) (len b2) ltac:(lia) H64).
  pose proof (len_nonneg (be_bytes 8 (len b1))).
  pose proof (len_nonneg (be_bytes 8 (len b2))).
  destruct (len b1 <? 128) eqn:E1; destruct (len b2 <? 128) eqn:E2;
    rewrite ?len_cons, ?len_nil; lia.
Qed.

(** A key file read up to the parent: what comes back depends on the rest
    of the sequence alone. *)
Lemma ParseDER_fields (k : TPMKey) (tail junk : bytes) :
  knownKeytype (keytype k) = true ->
  (List.length (policy k) <= 1)%nat ->
  forallb (fun p => int64_range (commandCode p)) (policy k) = true ->
  authPolicy k = [] ->
  (forall t, t <> INTEGER -> PeekASN1Tag tail t = false) ->
  len (AddASN1 SEQUENCE
         (AddASN1ObjectIdentifier (keytype k) ++ marshalOptional k ++ tail))
  < 2 ^ 32 ->
  ParseDER
    (AddASN1 SEQUENCE
       (AddASN1ObjectIdentifier (keytype k) ++ marshalOptional k ++ tail)
     ++ junk)
  = match ReadASN1Integer tail with
    | None => Err "failed reading parent"
    | Some (parent, s) =>
    match ReadASN1 s OCTET_STRING with
    | None => Err "could not parse pubkey"
    | Some (pubkey, s) =>
    match ReadASN1 s OCTET_STRING with
    | None => Err "could not parse privkey"
    | Some (privkey, _) =>
        Ok (mkTPMKey (keytype k) (emptyAuth k) (policy k) (secret k) []
                     parent pubkey privkey)
    end end end.
Proof.
  intros Hoid Hpol Hcc Hap Htail Hlen.
  destruct k as [oid ea pol sec ap par pub priv].
  cbn [keytype emptyAuth policy secret authPolicy Parent Pubkey Privkey] in *.
  subst ap.
  unfold marshalOptional in *.
  cbn [keytype emptyAuth policy secret authPolicy Parent Pubkey Privkey] in *.
  change (len (@nil TPMAuthPolicy) =? 0) with true in *. cbv iota in *.
  rewrite app_nil_r in *.
  remember (if Empty sec then [] else AddASN1 (ctx 2) (AddASN1OctetString sec))
    as esec eqn:Eesec.
  remember (if len pol =? 0 then [] else marshalPolicies (ctx 1) pol)
    as epol eqn:Eepol.
  remember (if ea then AddASN1 (ctx 0) (AddASN1Boolean true) else [])
    as eea eqn:Eeea.
  remember (AddASN1ObjectIdentifier oid) as eoid eqn:Eeoid.
  pose proof (len_AddASN1_ge SEQUENCE (eoid ++ (eea ++ epol ++ esec) ++ tail))
    as G0.
  rewrite !len_app in G0.
  pose proof (len_nonneg eoid). pose proof (len_nonneg eea).
  pose proof (len_nonneg epol). pose proof (len_nonneg esec).
  pose proof (len_nonneg tail).
  assert (Psec : forall t, t <> ctx 2 -> t <> INTEGER ->
                           PeekASN1Tag (esec ++ tail) t = false).
  { intros t T2 TI. rewrite Eesec. destruct (Empty sec).
    - cbn [app]. apply Htail. exact TI.
    - rewrite PeekASN1Tag_AddASN1 by (cbv; intuition discriminate).
      apply Z.eqb_neq. congruence. }
  assert (Ppol : forall t, t <> ctx 1 -> t <> ctx 2 -> t <> INTEGER ->
                           PeekASN1Tag (epol ++ esec ++ tail) t = false).
  { intros t T1 T2 TI. rewrite Eepol. destruct (len pol =? 0).
    - cbn [app]. apply Psec; assumption.
    - unfold marshalPolicies.
      rewrite PeekASN1Tag_AddASN1 by (cbv; intuition discriminate).
      apply Z.eqb_neq. congruence. }
  unfold ParseDER.
  rewrite ReadASN1_AddASN1 by asn1_side.
  rewrite Eeoid at 1. rewrite ReadASN1ObjectIdentifier_known by assumption.
  rewrite Hoid. cbn [negb].
  rewrite <- !app_assoc.
  assert (Hea : ReadOptionalASN1 (eea ++ epol ++ esec ++ tail) (ctx 0)
                = Some (if ea then AddASN1Boolean true else [], ea,
                        epol ++ esec ++ tail)).
  { rewrite Eeea. destruct ea.
    - apply ReadOptionalASN1_present;
        [cbv; intuition discriminate|discriminate|reflexivity].
    - cbn [app]. apply ReadOptionalASN1_absent. apply Ppol; discriminate. }
  rewrite Hea. clear Hea.
  assert (Hb : (if ea then
                  match ReadASN1Boolean (if ea then AddASN1Boolean true else [])
                  with
                  | Some (auth, _) => Ok auth
                  | None => Err "no emptyAuth bool"
                  end
                else Ok false) = Ok ea).
  { destruct ea; reflexivity. }
  rewrite Hb. clear Hb.
  assert (Hp : parseTPMPolicy (epol ++ esec ++ tail) = Ok (pol, esec ++ tail)).
  { rewrite Eepol in *. destruct pol as [|p [|p' pol']].
    - cbn [app]. change (len (@nil TPMPolicy) =? 0) with true. cbv iota.
      cbn [app]. apply parseTPMPolicy_absent. apply Psec; discriminate.
    - change (len [p] =? 0) with false in *. cbv iota in *.
      apply parseTPMPolicy_first.
      + apply int64_range_spec. cbn [forallb] in Hcc.
        apply andb_true_iff in Hcc. apply Hcc.
      + lia.
    - exfalso. cbn [List.length] in Hpol. lia. }
  rewrite Hp. clear Hp.
  assert (Hs : ReadOptionalASN1 (esec ++ tail) (ctx 2)
               = Some (if Empty sec then [] else AddASN1OctetString sec,
                       negb (Empty sec), tail)).
  { rewrite Eesec in *. destruct (Empty sec) eqn:Es.
    - cbn [app negb]. apply ReadOptionalASN1_absent. apply Htail.
      discriminate.
    - cbn [negb]. apply ReadOptionalASN1_present;
        [cbv; intuition discriminate|discriminate|].
      lia. }
  rewrite Hs. clear Hs.
  assert (Hs2 : (if negb (Empty sec) then
                   match ReadASN1 (if Empty sec then []
                                   else AddASN1OctetString sec)
                                  OCTET_STRING with
                   | Some (secret, _) => Ok secret
                   | None => Err "could not parse secret"
                   end
                 else Ok []) = Ok sec).
  { destruct (Empty sec) eqn:Es; cbn [negb].
    - apply Empty_true in Es. subst. reflexivity.
    - unfold AddASN1OctetString.
      rewrite ReadASN1_AddASN1_all;
        [reflexivity|cbv; intuition discriminate|discriminate|].
      pose proof (len_AddASN1_ge (ctx 2) (AddASN1OctetString sec)) as G2.
      rewrite <- Eesec in G2.
      unfold AddASN1OctetString in *. lia. }
  rewrite Hs2. clear Hs2.
  rewrite parseTPMAuthPolicy_absent by (apply Htail; discriminate).
  reflexivity.
Qed.

Lemma parseable_inv (k : TPMKey) :
  parseable k = true ->
  knownKeytype (keytype k) = true
  /\ (List.length (policy k) <= 1)%nat
  /\ forallb (fun p => int64_range (commandCode p)) (policy k) = true
  /\ authPolicy k = []
  /\ - 2 ^ 63 <= Parent k < 2 ^ 63
  /\ len (Marshal k) < 2 ^ 32.
Proof.
  unfold parseable. intros H.
  repeat (apply andb_true_iff in H; let H' := fresh "H" in destruct H as [H H']).
  apply Z.leb_le in H4. apply Z.eqb_eq in H3. apply len_zero_nil in H3.
  apply int64_range_spec in H1. apply Z.ltb_lt in H0.
  unfold len in H4. repeat split; try assumption; lia.
Qed.

Lemma Peek_integer_first (v : Z) (rest : bytes) (t : Z) :
  t <> INTEGER -> PeekASN1Tag (AddASN1Int64 v ++ rest) t = false.
Proof.
  intros H. unfold AddASN1Int64.
  rewrite PeekASN1Tag_AddASN1 by (unfold INTEGER; lia).
  apply Z.eqb_neq. congruence.
Qed.

(** X4.  The parent, the pubkey and the privkey are mandatory: a key file
    that ends after the optional fields, after the parent or after the
    pubkey fails with the error of the first field that is missing. *)
Theorem X4_mandatory_fields (k : TPMKey) :
  parseable k = true ->
  let head := AddASN1ObjectIdentifier (keytype k) ++ marshalOptional k in
  ParseDER (AddASN1 SEQUENCE head) = Err "failed reading parent"
  /\ ParseDER (AddASN1 SEQUENCE (head ++ AddASN1Int64 (Parent k)))
     = Err "could not parse pubkey"
  /\ ParseDER (AddASN1 SEQUENCE
                 (head ++ AddASN1Int64 (Parent k)
                  ++ AddASN1OctetString (Pubkey k)))
     = Err "could not parse privkey".
Proof.
  intros H head.
  destruct (@parseable_inv k H) as (Hk & Hl & Hc & Ha & Hp & Hlen).
  unfold Marshal in Hlen.
  pose proof (len_AddASN1_ge SEQUENCE
                (AddASN1ObjectIdentifier (keytype k) ++ marshalOptional k
                 ++ AddASN1Int64 (Parent k) ++ AddASN1OctetString (Pubkey k)
                 ++ AddASN1OctetString (Privkey k))) as G.
  rewrite !len_app in G.
  pose proof (len_nonneg (AddASN1ObjectIdentifier (keytype k))).
  pose proof (len_nonneg (marshalOptional k)).
  pose proof (len_nonneg (AddASN1Int64 (Parent k))).
  pose proof (len_nonneg (AddASN1OctetString (Pubkey k))).
  pose proof (len_nonneg (AddASN1OctetString (Privkey k))).
  assert (Hsize : forall tail,
             len tail <= len (AddASN1Int64 (Parent k))
                         + len (AddASN1OctetString (Pubkey k))
                         + len (AddASN1OctetString (Privkey k)) ->
             len (AddASN1 SEQUENCE
                    (AddASN1ObjectIdentifier (keytype k)
                     ++ marshalOptional k ++ tail)) < 2 ^ 32).
  { intros tail Ht.
    eapply Z.le_lt_trans; [|exact Hlen].
    apply len_AddASN1_mono; rewrite !len_app; lia. }
  unfold head. rewrite <- !app_assoc.
  split; [|split].
  - rewrite <- (app_nil_r (marshalOptional k)) at 1.
    rewrite <- (app_nil_r (AddASN1 SEQUENCE _)).
    rewrite ParseDER_fields; try assumption.
    + reflexivity.
    + intros t _. reflexivity.
    + apply Hsize. rewrite len_nil. lia.
  - rewrite <- (app_nil_r (AddASN1 SEQUENCE _)).
    rewrite ParseDER_fields; try assumption.
    + unfold ReadASN1Integer.
      rewrite <- (app_nil_r (AddASN1Int64 (Parent k))).
      rewrite readASN1Int64_AddASN1Int64 by assumption. reflexivity.
    + intros t Ht. rewrite <- (app_nil_r (AddASN1Int64 (Parent k))).
      apply Peek_integer_first. exact Ht.
    + apply Hsize. lia.
  - rewrite <- (app_nil_r (AddASN1 SEQUENCE _)).
    rewrite ParseDER_fields; try assumption.
    + unfold ReadASN1Integer.
      rewrite readASN1Int64_AddASN1Int64 by assumption.
      unfold AddASN1OctetString.
      rewrite ReadASN1_AddASN1_all; [reflexivity|asn1_side|asn1_side|].
      unfold AddASN1OctetString in *. lia.
    + intros t Ht. apply Peek_integer_first. exact Ht.
    + apply Hsize. rewrite len_app. lia.
Qed.

Lemma X4_mandatory_fields_witness :
  ParseDER (x30 :: x08 :: firstn 8 (skipn 2 derPlain))
  = Err "failed reading parent"
  /\ ParseDER (x30 :: x0e :: firstn 14 (skipn 2 derPlain))
     = Err "could not parse pubkey"
  /\ ParseDER (x30 :: x12 :: firstn 18 (skipn 2 derPlain))
     = Err "could not parse privkey".
Proof.
  apply (@X4_mandatory_fields keyPlain). reflexivity.
Defined.

(** X5.  [Parse] does not look past the privkey: bytes that follow it
    inside the outer sequence are ignored, and the Key is the one of the
    file without them. *)
Theorem X5_bytes_after_privkey_ignored (k : TPMKey) (inner : bytes) :
  parseable k = true ->
  len (AddASN1 SEQUENCE
         (AddASN1ObjectIdentifier (keytype k) ++ marshalOptional k
          ++ AddASN1Int64 (Parent k) ++ AddASN1OctetString (Pubkey k)
          ++ AddASN1OctetString (Privkey k) ++ inner)) < 2 ^ 32 ->
  ParseDER
    (AddASN1 SEQUENCE
       (AddASN1ObjectIdentifier (keytype k) ++ marshalOptional k
        ++ AddASN1Int64 (Parent k) ++ AddASN1OctetString (Pubkey k)
        ++ AddASN1OctetString (Privkey k) ++ inner))
  = Ok k.
Proof.
  intros H Hlen.
  destruct (@parseable_inv k H) as (Hk & Hl & Hc & Ha & Hp & _).
  rewrite <- (app_nil_r (AddASN1 SEQUENCE _)).
  rewrite ParseDER_fields; try assumption.
  - pose proof (len_AddASN1_ge SEQUENCE
                  (AddASN1ObjectIdentifier (keytype k) ++ marshalOptional k
                   ++ AddASN1Int64 (Parent k)
                   ++ AddASN1OctetString (Pubkey k)
                   ++ AddASN1OctetString (Privkey k) ++ inner)) as G.
    rewrite !len_app in G.
    pose proof (len_nonneg (AddASN1ObjectIdentifier (keytype k))).
    pose proof (len_nonneg (marshalOptional k)).
    pose proof (len_nonneg (AddASN1Int64 (Parent k))).
    pose proof (len_nonneg (AddASN1OctetString (Pubkey k))).
    pose proof (len_nonneg (AddASN1OctetString (Privkey k))).
    pose proof (len_nonneg inner).
    unfold ReadASN1Integer.
    rewrite readASN1Int64_AddASN1Int64 by assumption.
    unfold AddASN1OctetString in *.
    rewrite ReadASN1_AddASN1 by asn1_side.
    rewrite ReadASN1_AddASN1 by asn1_side.
    destruct k as [oid ea pol sec ap par pub priv].
    cbn [keytype emptyAuth policy secret authPolicy Parent Pubkey Privkey] in *.
    subst ap. reflexivity.
  - intros t Ht. apply Peek_integer_first. exact Ht.
Qed.

Lemma X5_bytes_after_privkey_ignored_witness :
  ParseDER (x30 :: x17 :: skipn 2 derPlain ++ [xde; xad]) = Ok keyPlain.
Proof.
  apply (@X5_bytes_after_privkey_ignored keyPlain [xde; xad]); reflexivity.
Defined.

(** ** Malformed optional fields *)

(** X6.  The emptyAuth wrapper must hold a DER boolean: with a recognized
    key type, a wrapped BOOLEAN whose byte is neither 0x00 nor 0xff fails
    with "no emptyAuth bool", whatever follows. *)
Theorem X6_emptyAuth_boolean_strict
        (oid : ObjectIdentifier) (v : byte) (rest : bytes) :
  knownKeytype oid = true ->
  byte_val v <> 0 -> byte_val v <> 255 ->
  len (AddASN1 SEQUENCE
         (AddASN1ObjectIdentifier oid
          ++ AddASN1 (ctx 0) (AddASN1 BOOLEAN [v]) ++ rest)) < 2 ^ 32 ->
  ParseDER
    (AddASN1 SEQUENCE
       (AddASN1ObjectIdentifier oid
        ++ AddASN1 (ctx 0) (AddASN1 BOOLEAN [v]) ++ rest))
  = Err "no emptyAuth bool".
Proof.
  intros Hk H0 H255 Hlen.
  pose proof (len_AddASN1_ge SEQUENCE
                (AddASN1ObjectIdentifier oid
                 ++ AddASN1 (ctx 0) (AddASN1 BOOLEAN [v]) ++ rest)) as G.
  rewrite !len_app in G.
  pose proof (len_nonneg (AddASN1ObjectIdentifier oid)).
  pose proof (len_nonneg rest).
  pose proof (len_nonneg (AddASN1 (ctx 0) (AddASN1 BOOLEAN [v]))).
  unfold ParseDER.
  rewrite ReadASN1_AddASN1_all by asn1_side.
  rewrite ReadASN1ObjectIdentifier_known by assumption.
  rewrite Hk. cbn [negb].
  rewrite ReadOptionalASN1_present by asn1_side.
  unfold ReadASN1Boolean.
  rewrite ReadASN1_AddASN1_all by (first [reflexivity | asn1_side]).
  apply Z.eqb_neq in H0, H255. rewrite H0, H255. reflexivity.
Qed.

Lemma X6_emptyAuth_boolean_strict_witness :
  ParseDER
    [x30; x1a; x06; x06; x67; x81; x05; x0a; x01; x03; xa0; x03; x01; x01;
     x01; x02; x04; x40; x00; x00; x01; x04; x02; x01; x02; x04; x01; x03]
  = Err "no emptyAuth bool".
Proof.
  apply (@X6_emptyAuth_boolean_strict OIDLoadableKey x01
           (skipn 10 derPlain)); (reflexivity || discriminate).
Defined.

(** X7.  Once a policy element exists both of its fields are mandatory, in
    their order: an element that does not start with the [0] commandCode
    fails with "strip tag from commandCode", and one whose commandCode is
    not followed by the [1] commandPolicy fails with "strip tag from
    commandPolicy". *)
Theorem X7_policy_fields_mandatory (more rest : bytes) :
  (forall elem : bytes,
      PeekASN1Tag elem (ctx 0) = false ->
      len (AddASN1 (ctx 1)
             (AddASN1 SEQUENCE (AddASN1 SEQUENCE elem ++ more))) < 2 ^ 32 ->
      parseTPMPolicy
        (AddASN1 (ctx 1) (AddASN1 SEQUENCE (AddASN1 SEQUENCE elem ++ more))
         ++ rest)
      = Err "strip tag from commandCode")
  /\ (forall (cc : Z) (e2 : bytes),
         - 2 ^ 63 <= cc < 2 ^ 63 ->
         PeekASN1Tag e2 (ctx 1) = false ->
         len (AddASN1 (ctx 1)
                (AddASN1 SEQUENCE
                   (AddASN1 SEQUENCE
                      (AddASN1 (ctx 0) (AddASN1Int64 cc) ++ e2) ++ more)))
         < 2 ^ 32 ->
         parseTPMPolicy
           (AddASN1 (ctx 1)
              (AddASN1 SEQUENCE
                 (AddASN1 SEQUENCE
                    (AddASN1 (ctx 0) (AddASN1Int64 cc) ++ e2) ++ more))
            ++ rest)
         = Err "strip tag from commandPolicy").
Proof.
  split.
  - intros elem Hpeek Hlen.
    pose proof (len_AddASN1_ge (ctx 1)
                  (AddASN1 SEQUENCE (AddASN1 SEQUENCE elem ++ more))) as G1.
    pose proof (len_AddASN1_ge SEQUENCE (AddASN1 SEQUENCE elem ++ more)) as G2.
    rewrite len_app in G2. pose proof (len_nonneg more).
    unfold parseTPMPolicy.
    rewrite ReadOptionalASN1_present by asn1_side. cbn [negb].
    rewrite ReadASN1_AddASN1_all by asn1_side.
    rewrite Empty_AddASN1. cbn [negb].
    rewrite ReadASN1_AddASN1 by asn1_side.
    rewrite (ReadASN1_wrong_tag _ _ Hpeek). reflexivity.
  - intros cc e2 Hcc Hpeek Hlen.
    set (e0 := AddASN1 (ctx 0) (AddASN1Int64 cc)) in *.
    pose proof (len_AddASN1_ge (ctx 1)
                  (AddASN1 SEQUENCE (AddASN1 SEQUENCE (e0 ++ e2) ++ more)))
      as G1.
    pose proof (len_AddASN1_ge SEQUENCE (AddASN1 SEQUENCE (e0 ++ e2) ++ more))
      as G2.
    rewrite len_app in G2. pose proof (len_nonneg more).
    pose proof (len_AddASN1_ge SEQUENCE (e0 ++ e2)) as G3.
    rewrite len_app in G3. pose proof (len_nonneg e2).
    pose proof (len_nonneg e0).
    unfold parseTPMPolicy.
    rewrite ReadOptionalASN1_present by asn1_side. cbn [negb].
    rewrite ReadASN1_AddASN1_all by asn1_side.
    rewrite Empty_AddASN1. cbn [negb].
    rewrite ReadASN1_AddASN1 by asn1_side.
    unfold e0 at 1.
    rewrite ReadASN1_AddASN1;
      [|cbv; intuition discriminate|discriminate|fold e0; lia].
    unfold ReadASN1Integer.
    rewrite <- (app_nil_r (AddASN1Int64 cc)).
    rewrite readASN1Int64_AddASN1Int64 by assumption.
    rewrite (ReadASN1_wrong_tag _ _ Hpeek). reflexivity.
Qed.

Lemma X7_policy_fields_mandatory_witness :
  parseTPMPolicy [xa1; x04; x30; x02; x30; x00]
  = Err "strip tag from commandCode"
  /\ parseTPMPolicy
       [xa1; x0a; x30; x08; x30; x06; xa0; x04; x02; x02; x01; x6b]
     = Err "strip tag from commandPolicy".
Proof.
  split.
  - apply (proj1 (@X7_policy_fields_mandatory [] []) []); reflexivity.
  - apply (proj2 (@X7_policy_fields_mandatory [] []) 363 []);
      first [reflexivity | lia].
Defined.

(** ** Auth-policies are checked before they are dropped *)

(** X8.  The name of an auth-policy must be valid UTF-8: a wrapper whose
    first element carries a name that is not fails with "invalid utf8 bytes
    in name of auth policy", whatever the element holds besides. *)
Theorem X8_authPolicy_name_utf8 (nm e2 more rest : bytes) :
  utf8.Valid nm = false ->
  len (AddASN1 (ctx 3)
         (AddASN1 SEQUENCE
            (AddASN1 SEQUENCE
               (AddASN1 (ctx 0) (AddASN1 UTF8String nm) ++ e2) ++ more)))
  < 2 ^ 32 ->
  parseTPMAuthPolicy
    (AddASN1 (ctx 3)
       (AddASN1 SEQUENCE
          (AddASN1 SEQUENCE
             (AddASN1 (ctx 0) (AddASN1 UTF8String nm) ++ e2) ++ more))
     ++ rest)
  = Err "invalid utf8 bytes in name of auth policy".
Proof.
  intros Hv Hlen.
  set (e0 := AddASN1 (ctx 0) (AddASN1 UTF8String nm)) in *.
  pose proof (len_AddASN1_ge (ctx 3)
                (AddASN1 SEQUENCE (AddASN1 SEQUENCE (e0 ++ e2) ++ more)))
    as G1.
  pose proof (len_AddASN1_ge SEQUENCE (AddASN1 SEQUENCE (e0 ++ e2) ++ more))
    as G2.
  rewrite len_app in G2. pose proof (len_nonneg more).
  pose proof (len_AddASN1_ge SEQUENCE (e0 ++ e2)) as G3.
  rewrite len_app in G3. pose proof (len_nonneg e2).
  pose proof (len_AddASN1_ge (ctx 0) (AddASN1 UTF8String nm)) as G4.
  fold e0 in G4.
  unfold parseTPMAuthPolicy.
  rewrite ReadOptionalASN1_present by asn1_side. cbn [negb].
  rewrite ReadASN1_AddASN1_all by asn1_side.
  rewrite Empty_AddASN1. cbn [negb].
  rewrite ReadASN1_AddASN1 by asn1_side.
  unfold e0 at 1.
  rewrite ReadOptionalASN1_present;
    [|cbv; intuition discriminate|discriminate|fold e0; lia].
  rewrite ReadASN1_AddASN1_all by asn1_side.
  rewrite Hv. reflexivity.
Qed.

Lemma X8_authPolicy_name_utf8_witness :
  parseTPMAuthPolicy
    [xa3; x09; x30; x07; x30; x05; xa0; x03; x0c; x01; xff]
  = Err "invalid utf8 bytes in name of auth policy".
Proof.
  apply (@X8_authPolicy_name_utf8 [xff] [] [] []); reflexivity.
Defined.

(** X9.  An auth-policy must carry a policy: an element with no policy
    wrapper, or with a policy wrapper around nothing, fails with "tpm
    policies in auth policy is empty". *)
Theorem X9_authPolicy_needs_policy (more rest : bytes) :
  (forall e2 : bytes,
      PeekASN1Tag e2 (ctx 0) = false ->
      PeekASN1Tag e2 (ctx 1) = false ->
      len (AddASN1 (ctx 3)
             (AddASN1 SEQUENCE (AddASN1 SEQUENCE e2 ++ more))) < 2 ^ 32 ->
      parseTPMAuthPolicy
        (AddASN1 (ctx 3) (AddASN1 SEQUENCE (AddASN1 SEQUENCE e2 ++ more))
         ++ rest)
      = Err "tpm policies in auth policy is empty")
  /\ (forall e3 : bytes,
         len (AddASN1 (ctx 3)
                (AddASN1 SEQUENCE
                   (AddASN1 SEQUENCE
                      (AddASN1 (ctx 1) (AddASN1 SEQUENCE []) ++ e3) ++ more)))
         < 2 ^ 32 ->
         parseTPMAuthPolicy
           (AddASN1 (ctx 3)
              (AddASN1 SEQUENCE
                 (AddASN1 SEQUENCE
                    (AddASN1 (ctx 1) (AddASN1 SEQUENCE []) ++ e3) ++ more))
            ++ rest)
         = Err "tpm policies in auth policy is empty").
Proof.
  split.
  - intros e2 H0 H1 Hlen.
    pose proof (len_AddASN1_ge (ctx 3)
                  (AddASN1 SEQUENCE (AddASN1 SEQUENCE e2 ++ more))) as G1.
    pose proof (len_AddASN1_ge SEQUENCE (AddASN1 SEQUENCE e2 ++ more)) as G2.
    rewrite len_app in G2. pose proof (len_nonneg more).
    unfold parseTPMAuthPolicy.
    rewrite ReadOptionalASN1_present by asn1_side. cbn [negb].
    rewrite ReadASN1_AddASN1_all by asn1_side.
    rewrite Empty_AddASN1. cbn [negb].
    rewrite ReadASN1_AddASN1 by asn1_side.
    rewrite (ReadOptionalASN1_absent _ _ H0).
    rewrite (parseTPMPolicy_absent _ H1). reflexivity.
  - intros e3 Hlen.
    set (e1 := AddASN1 (ctx 1) (AddASN1 SEQUENCE [])) in *.
    pose proof (len_AddASN1_ge (ctx 3)
                  (AddASN1 SEQUENCE (AddASN1 SEQUENCE (e1 ++ e3) ++ more)))
      as G1.
    pose proof (len_AddASN1_ge SEQUENCE (AddASN1 SEQUENCE (e1 ++ e3) ++ more))
      as G2.
    rewrite len_app in G2. pose proof (len_nonneg more).
    unfold parseTPMAuthPolicy.
    rewrite ReadOptionalASN1_present by asn1_side. cbn [negb].
    rewrite ReadASN1_AddASN1_all by asn1_side.
    rewrite Empty_AddASN1. cbn [negb].
    rewrite ReadASN1_AddASN1 by asn1_side.
    rewrite ReadOptionalASN1_absent by reflexivity.
    unfold parseTPMPolicy, e1.
    rewrite ReadOptionalASN1_present;
      [|cbv; intuition discriminate|discriminate|reflexivity].
    reflexivity.
Qed.

Lemma X9_authPolicy_needs_policy_witness :
  parseTPMAuthPolicy [xa3; x04; x30; x02; x30; x00]
  = Err "tpm policies in auth policy is empty"
  /\ parseTPMAuthPolicy
       [xa3; x08; x30; x06; x30; x04; xa1; x02; x30; x00]
     = Err "tpm policies in auth policy is empty".
Proof.
  split.
  - apply (proj1 (@X9_authPolicy_needs_policy [] []) []); reflexivity.
  - apply (proj2 (@X9_authPolicy_needs_policy [] []) []); reflexivity.
Defined.

(** ** The armor *)

(** X10.  [Parse] checks the armor before anything else: without a block it
    fails with "not an armored key", with a block of another type with
    [ErrNotTPMKey] whatever the block holds, and otherwise its result is
    that of decoding the block's bytes. *)
Theorem X10_armor_checked_first
        (pem_Decode : bytes -> option Block) (b : bytes) :
  (pem_Decode b = None -> Parse pem_Decode b = Err "not an armored key")
  /\ (forall blk, pem_Decode b = Some blk ->
                  BlockType blk <> "TSS2 PRIVATE KEY"%string ->
                  Parse pem_Decode b = Err ErrNotTPMKey)
  /\ (forall blk, pem_Decode b = Some blk ->
                  BlockType blk = "TSS2 PRIVATE KEY"%string ->
                  Parse pem_Decode b = ParseDER (Bytes blk)).
Proof.
  unfold Parse, unwrapPEM. repeat split.
  - intros H. rewrite H. reflexivity.
  - intros blk H Hne. rewrite H.
    destruct (String.eqb_spec (BlockType blk) "TSS2 PRIVATE KEY");
      [contradiction|reflexivity].
  - intros blk H He. rewrite H, He. reflexivity.
Qed.

Lemma X10_armor_checked_first_witness :
  Parse noBlock derPlain = Err "not an armored key"
  /\ Parse otherBlock derPlain = Err ErrNotTPMKey
  /\ Parse bareBlock derPlain = ParseDER derPlain.
Proof.
  split; [|split].
  - apply (proj1 (@X10_armor_checked_first noBlock derPlain)). reflexivity.
  - apply (proj1 (proj2 (@X10_armor_checked_first otherBlock derPlain))
             (mkBlock "RSA PRIVATE KEY" derPlain)).
    + reflexivity.
    + discriminate.
  - apply (proj2 (proj2 (@X10_armor_checked_first bareBlock derPlain))
             (mkBlock "TSS2 PRIVATE KEY" derPlain)); reflexivity.
Defined.

(** * Further properties of the key entity *)

Lemma SetBytes_zeros (n : nat) (b : bytes) :
  SetBytes (repeat x00 n ++ b) = SetBytes b.
Proof.
  induction n as [|n IH]; [reflexivity|].
  cbn [repeat app]. unfold SetBytes in *. cbn [fold_left]. exact IH.
Qed.

Section MoreEntityProperties.
Import tpm2 keyfile.

Variable Unmarshal : bytes -> result TPMTPublic.

Lemma PublicKey_nil (t : TPMKey) (e : option string) :
  PublicKey Unmarshal t = Returns (any_nil, e) ->
  e = Some "no public key"%string.
Proof.
  unfold PublicKey. destruct (KeyAlgo Unmarshal t) as [alg|]; [|discriminate].
  destruct (alg =? TPMAlgECC).
  - destruct (ecdsaPubKey Unmarshal t). discriminate.
  - destruct (alg =? TPMAlgRSA).
    + destruct (rsaPubKey Unmarshal t). discriminate.
    + intros H. inversion H. reflexivity.
Qed.

Lemma rsaPubKey_shape (t : TPMKey) :
  (exists k, rsaPubKey Unmarshal t = (Some k, None))
  \/ (exists e, rsaPubKey Unmarshal t = (None, Some e)).
Proof.
  unfold rsaPubKey.
  destruct (Contents Unmarshal (Pubkey t)) as [pub|]; [|right; eauto].
  destruct (RSADetail (Parameters pub)) as [d|]; [|right; eauto].
  destruct (RSA (Unique pub)) as [u|]; [|right; eauto].
  left. unfold RSAPub. eauto.
Qed.

(** X11.  For a public area with RSA parameters and an RSA unique field
    [rsaPubKey] returns the modulus read big-endian from the unique bytes and
    the exponent of the parameters, 65537 standing in for 0; and whatever
    the Key, it never returns a nil key without an error. *)
Theorem X11_rsaPubKey
        (t : TPMKey) (pub : TPMTPublic) (parms : TPMSRSAParms)
        (unique : bytes) :
  Contents Unmarshal (Pubkey t) = Ok pub ->
  RSADetail (Parameters pub) = Ok parms ->
  RSA (Unique pub) = Ok unique ->
  rsaPubKey Unmarshal t
  = (Some (mk_rsa_PublicKey
             (SetBytes unique)
             (if Exponent parms =? 0 then 65537 else Exponent parms)),
     None)
  /\ forall t' : TPMKey, rsaPubKey Unmarshal t' <> (None, None).
Proof.
  intros Hc Hd Hu. split.
  - unfold rsaPubKey. rewrite Hc, Hd, Hu. reflexivity.
  - intros t' H.
    destruct (rsaPubKey_shape t') as [[k E]|[e E]]; rewrite E in H;
      discriminate.
Qed.

(** X12.  The queries on the public area fail as one: [HasSinger],
    [KeyAlgo], [PublicKey] and [Signer] panic exactly when the public area
    of the Key cannot be read. *)
Theorem X12_panic_iff_unreadable
        (TPMCloser : Type) (t : TPMKey) (tpm : TPMCloser)
        (ownerAuth auth : bytes) :
  let unreadable := exists e, Contents Unmarshal (Pubkey t) = Err e in
  ((exists m, HasSinger Unmarshal t = Panics m) <-> unreadable)
  /\ ((exists m, KeyAlgo Unmarshal t = Panics m) <-> unreadable)
  /\ ((exists m, PublicKey Unmarshal t = Panics m) <-> unreadable)
  /\ ((exists m, Signer Unmarshal t tpm ownerAuth auth = Panics m)
      <-> unreadable).
Proof.
  cbn zeta.
  unfold Signer, PublicKey, HasSinger, KeyAlgo.
  destruct (Contents Unmarshal (Pubkey t)) as [pub|e].
  - repeat split; intros [m H]; try discriminate.
    + destruct (Type_ pub =? TPMAlgECC).
      * destruct (ecdsaPubKey Unmarshal t). discriminate.
      * destruct (Type_ pub =? TPMAlgRSA); [|discriminate].
        destruct (rsaPubKey Unmarshal t). discriminate.
    + destruct (negb (SignEncrypt (ObjectAttributes pub))); discriminate.
  - repeat split; intros _; eauto.
Qed.

Variable ecdsa_VerifyASN1 : ecdsa_PublicKey -> bytes -> bytes -> bool.
Variable Hash : Type.
Variable rsa_VerifyPKCS1v15 :
  rsa_PublicKey -> Hash -> bytes -> bytes -> option string.

Local Abbreviation Verify' :=
  (Verify Unmarshal ecdsa_VerifyASN1 rsa_VerifyPKCS1v15).

(** X13.  [Verify] answers true only for a signature that the primitive of
    the reconstructed key accepted: ECDSA under the ECDSA key, RSA PKCS#1
    v1.5 with the given hash under the RSA key. *)
Theorem X13_Verify_true_only_if_accepted
        (t : TPMKey) (alg : Hash) (hashed sig : bytes)
        (err : option string) :
  Verify' t alg hashed sig = Returns (true, err) ->
  (exists pk, PublicKey Unmarshal t = Returns (any_ecdsa (Some pk), None)
              /\ ecdsa_VerifyASN1 pk hashed sig = true)
  \/ (exists pk, PublicKey Unmarshal t = Returns (any_rsa (Some pk), None)
                 /\ rsa_VerifyPKCS1v15 pk alg hashed sig = None).
Proof.
  unfold Verify.
  destruct (PublicKey Unmarshal t) as [[pubkey [e|]]|m] eqn:E;
    try discriminate.
  destruct pubkey as [|[pk|]|[pk|]]; try discriminate.
  - apply PublicKey_nil in E. discriminate.
  - destruct (ecdsa_VerifyASN1 pk hashed sig) eqn:V; [|discriminate].
    intros _. left. exists pk. split; [reflexivity|exact V].
  - destruct (rsa_VerifyPKCS1v15 pk alg hashed sig) eqn:V; [discriminate|].
    intros _. right. exists pk. split; [reflexivity|exact V].
Qed.

(** X14.  When [Verify] returns, the verdict and the error go together:
    true comes with no error, false with one. *)
Theorem X14_Verify_verdict_and_error
        (t : TPMKey) (alg : Hash) (hashed sig : bytes)
        (ok : bool) (err : option string) :
  Verify' t alg hashed sig = Returns (ok, err) ->
  (ok = true <-> err = None).
Proof.
  unfold Verify.
  destruct (PublicKey Unmarshal t) as [[pubkey [e|]]|m] eqn:E;
    try discriminate.
  - intros H. inversion H. split; discriminate.
  - destruct pubkey as [|[pk|]|[pk|]]; try discriminate.
    + apply PublicKey_nil in E. discriminate.
    + destruct (ecdsa_VerifyASN1 pk hashed sig); intros H; inversion H;
        split; (reflexivity || discriminate).
    + destruct (rsa_VerifyPKCS1v15 pk alg hashed sig); intros H; inversion H;
        split; (reflexivity || discriminate).
Qed.


(** X16.  A Key that is neither an elliptic-curve nor an RSA key, such as a
    sealed object, has no public key: [PublicKey] returns the "no public
    key" error and [Verify] returns false with that error, without
    consulting a primitive. *)
Theorem X16_no_public_key
        (t : TPMKey) (pub : TPMTPublic) (alg : Hash) (hashed sig : bytes) :
  Contents Unmarshal (Pubkey t) = Ok pub ->
  Type_ pub <> TPMAlgECC ->
  Type_ pub <> TPMAlgRSA ->
  PublicKey Unmarshal t = Returns (any_nil, Some "no public key"%string)
  /\ Verify' t alg hashed sig
     = Returns (false, Some "failed getting pubkey: no public key"%string).
Proof.
  intros Hc N1 N2.
  assert (E : PublicKey Unmarshal t
              = Returns (any_nil, Some "no public key"%string)).
  { unfold PublicKey, KeyAlgo. rewrite Hc.
    apply Z.eqb_neq in N1, N2. rewrite N1, N2. reflexivity. }
  split; [exact E|]. unfold Verify. rewrite E. reflexivity.
Qed.

(** X17.  Leading zero bytes in the coordinates do not change the public
    key: two Keys whose public areas differ only in such padding of X and Y
    reconstruct to the same ECDSA key. *)
Theorem X17_coordinates_ignore_leading_zeros
        (t t' : TPMKey) (pub pub' : TPMTPublic) (x y : bytes) (n m : nat) :
  Contents Unmarshal (Pubkey t) = Ok pub ->
  Contents Unmarshal (Pubkey t') = Ok pub' ->
  Unique pub = UniqueECC (mkTPMSECCPoint x y) ->
  Unique pub' = UniqueECC (mkTPMSECCPoint (repeat x00 n ++ x)
                                          (repeat x00 m ++ y)) ->
  Parameters pub' = Parameters pub ->
  ecdsaPubKey Unmarshal t' = ecdsaPubKey Unmarshal t.
Proof.
  intros Hc Hc' Hu Hu' Hp. unfold ecdsaPubKey.
  rewrite Hc, Hc', Hu, Hu', Hp. cbn [ECC X Y].
  rewrite !SetBytes_zeros. reflexivity.
Qed.

End MoreEntityProperties.

Lemma X11_rsaPubKey_witness :
  keyfile.rsaPubKey noUnmarshal (entityKey (tpm2.New2B rsaPublic))
  = (Some (keyfile.mk_rsa_PublicKey 65537 65537), None)
  /\ forall t' : keyfile.TPMKey,
      keyfile.rsaPubKey noUnmarshal t' <> (None, None).
Proof.
  apply (@X11_rsaPubKey noUnmarshal (entityKey (tpm2.New2B rsaPublic))
           rsaPublic (tpm2.mkTPMSRSAParms 2048 0) [x01; x00; x01]);
    reflexivity.
Defined.

Lemma X13_Verify_true_only_if_accepted_witness :
  keyfile.Verify noUnmarshal (fun _ _ _ => true)
    (fun _ (_ : unit) _ _ => None) keyP256 tt [x0a] [x0b]
  = Returns (true, None)
  /\ ((exists pk,
          keyfile.PublicKey noUnmarshal keyP256
          = Returns (keyfile.any_ecdsa (Some pk), None)
          /\ (fun _ _ _ => true) pk [x0a] [x0b] = true)
      \/ (exists pk,
             keyfile.PublicKey noUnmarshal keyP256
             = Returns (keyfile.any_rsa (Some pk), None)
             /\ (fun _ (_ : unit) _ _ => @None string) pk tt [x0a] [x0b]
                = None)).
Proof.
  split; [reflexivity|].
  apply (@X13_Verify_true_only_if_accepted noUnmarshal
           (fun _ _ _ => true) unit (fun _ _ _ _ => None)
           keyP256 tt [x0a] [x0b] None).
  reflexivity.
Defined.

Lemma X14_Verify_verdict_and_error_witness :
  keyfile.Verify noUnmarshal (fun _ _ _ => false)
    (fun _ (_ : unit) _ _ => None) keyP256 tt [x0a] [x0b]
  = Returns (false, Some "invalid signature"%string)
  /\ (false = true <-> Some "invalid signature"%string = None).
Proof.
  split; [reflexivity|].
  apply (@X14_Verify_verdict_and_error noUnmarshal
           (fun _ _ _ => false) unit (fun _ _ _ _ => None)
           keyP256 tt [x0a] [x0b] false (Some "invalid signature"%string)).
  reflexivity.
Defined.

Lemma X16_no_public_key_witness :
  keyfile.PublicKey noUnmarshal (entityKey (tpm2.New2B keyedHashPublic))
  = Returns (keyfile.any_nil, Some "no public key"%string)
  /\ keyfile.Verify noUnmarshal (fun _ _ _ => true)
       (fun _ (_ : unit) _ _ => None)
       (entityKey (tpm2.New2B keyedHashPublic)) tt [x0a] [x0b]
     = Returns (false, Some "failed getting pubkey: no public key"%string).
Proof.
  apply (@X16_no_public_key noUnmarshal (fun _ _ _ => true) unit
           (fun _ _ _ _ => None)
           (entityKey (tpm2.New2B keyedHashPublic)) keyedHashPublic
           tt [x0a] [x0b]); (reflexivity || discriminate).
Defined.

Lemma X17_coordinates_ignore_leading_zeros_witness :
  keyfile.ecdsaPubKey noUnmarshal
    (entityKey (tpm2.New2B (eccPublicAt [x00; x00; x01; x02] [x00; x03])))
  = keyfile.ecdsaPubKey noUnmarshal
      (entityKey (tpm2.New2B (eccPublicAt [x01; x02] [x03]))).
Proof.
  apply (@X17_coordinates_ignore_leading_zeros noUnmarshal
           (entityKey (tpm2.New2B (eccPublicAt [x01; x02] [x03])))
           (entityKey (tpm2.New2B
                         (eccPublicAt [x00; x00; x01; x02] [x00; x03])))
           (eccPublicAt [x01; x02] [x03])
           (eccPublicAt [x00; x00; x01; x02] [x00; x03])
           [x01; x02] [x03] 2 1); reflexivity.
Defined.

(** ** Options *)

Lemma AddOptions_app (t : keyfile.TPMKey)
      (fn1 fn2 : list keyfile.TPMKeyOption) :
  keyfile.AddOptions t (fn1 ++ fn2)
  = keyfile.AddOptions (keyfile.AddOptions t fn1) fn2.
Proof. unfold keyfile.AddOptions. apply fold_left_app. Qed.

Section OptionProperties.
Import tpm2 keyfile.

Variable WithKeytype : ObjectIdentifier -> TPMKeyOption.
Variable WithUserAuth : bytes -> TPMKeyOption.
Variable WithParent : Z -> TPMKeyOption.
Variable WithPubkey : TPM2BPublic -> TPMKeyOption.
Variable WithPrivkey : bytes -> TPMKeyOption.

Local Abbreviation NewTPMKey' :=
  (NewTPMKey WithKeytype WithUserAuth WithParent WithPubkey WithPrivkey).

(** X18.  The caller's options run after the defaults, in the order given:
    passing options to [NewTPMKey] is the same as adding them afterwards
    with [AddOptions], and what the last option sets is what the new Key
    has, whatever the defaults and the earlier options did. *)
Theorem X18_options_after_defaults
        (oid : ObjectIdentifier) (pubkey : TPM2BPublic) (privkey : bytes)
        (fn1 fn2 : list TPMKeyOption) :
  NewTPMKey' oid pubkey privkey (fn1 ++ fn2)
  = AddOptions (NewTPMKey' oid pubkey privkey fn1) fn2
  /\ NewTPMKey' oid pubkey privkey fn2
     = AddOptions (NewTPMKey' oid pubkey privkey []) fn2
  /\ forall (A : Type) (get : TPMKey -> A) (f : TPMKeyOption) (v : A),
      (forall key, get (f key) = v) ->
      get (NewTPMKey' oid pubkey privkey (fn1 ++ [f])) = v.
Proof.
  unfold NewTPMKey. repeat split.
  - apply AddOptions_app.
  - intros A get f v H. rewrite AddOptions_app. cbn. apply H.
Qed.

End OptionProperties.
